(** * Parts-of-Speech Trainer: the analysis back end of [server.py]

    A shallow embedding of the rule-based annotation engine ([analyze] and
    its helpers) and of the sentence provider ([sentence]), followed by the
    properties the specification states about them.

    The parser (spaCy's [nlp]) is an oracle: a parsed sentence is a value of
    type [Doc], whose tokens carry the annotations the code reads. *)

From Stdlib Require Import String Ascii List Bool Arith ZArith Lia
  Permutation.
Import ListNotations.
Open Scope string_scope.
Open Scope nat_scope.

(** [==] on Python strings. *)
Infix "==" := String.eqb (at level 70, no associativity).

(* ===================================================================== *)
(** ** Python strings                                                     *)
(* ===================================================================== *)

(** [x in (a, b, c)] and [x in {a, b, c}] on strings. *)
Definition str_in (s : string) (l : list string) : bool :=
  existsb (String.eqb s) l.

(** [str.lower()]: the letters A-Z are mapped to a-z. Every lexical set the
    code compares a lowered string with is plain ASCII. *)
Definition lower_ascii (c : ascii) : ascii :=
  let n := nat_of_ascii c in
  if (65 <=? n) && (n <=? 90) then ascii_of_nat (n + 32) else c.

Fixpoint lower (s : string) : string :=
  match s with
  | EmptyString => EmptyString
  | String c r => String (lower_ascii c) (lower r)
  end.

(** [s[:1].isupper()]: the first character exists and is an upper-case
    letter. Strings are byte strings here and only the letters A-Z are
    recognised: a text that begins with a capital outside ASCII is upper
    case for Python and not for this test. Nothing below relies on the
    outcome of the test, only on its being false for the empty text. *)
Definition first_isupper (s : string) : bool :=
  match s with
  | EmptyString => false
  | String c _ => let n := nat_of_ascii c in (65 <=? n) && (n <=? 90)
  end.

(** [s.startswith(p)]. *)
Definition startswith (s p : string) : bool := String.prefix p s.

(** [" ".join(l)]. *)
Definition join_sp (l : list string) : string := String.concat " " l.

(* ===================================================================== *)
(** ** Parsed tokens and documents (the oracle's output)                  *)
(* ===================================================================== *)

(** A token of the parse. [head] is the index of the syntactic head (the
    root is its own head); [morph] maps a feature name to its values. *)
Record Token := {
  i : nat;
  text : string;
  lemma_ : string;
  pos_ : string;
  tag_ : string;
  dep_ : string;
  head : nat;
  morph : list (string * list string);
  ent_type_ : string
}.

(** A noun chunk: the tokens [start <= k < end_], its root token and its
    surface text. *)
Record Span := {
  start : nat;
  end_ : nat;
  root : Token;
  span_text : string
}.

(** A parsed sentence. [has_annotation_DEP] is [doc.has_annotation("DEP")];
    [noun_chunks] is [None] when reading the property raises (spaCy does so
    when the dependency parse is missing). *)
Record Doc := {
  toks : list Token;
  has_annotation_DEP : bool;
  noun_chunks : option (list Span)
}.

(** Tokens are numbered by their position in the document. *)
Definition doc_indexed (d : Doc) : Prop :=
  map i (toks d) = seq 0 (length (toks d)).

(** [t.head]: the token at index [head t]; a token whose head index is out
    of the document is its own head. *)
Definition head_of (d : Doc) (t : Token) : Token := nth (head t) (toks d) t.

(** Truth value of a token object: spaCy tokens define [__len__] (the
    length of the text) and no [__bool__]. *)
Definition truthy (t : Token) : bool := negb (text t == "").

(** [tok.children]: the tokens headed by [tok], other than itself, in
    document order. *)
Definition children (d : Doc) (t : Token) : list Token :=
  filter (fun c => (i (head_of d c) =? i t) && negb (i c =? i t)) (toks d).

(** [morph.get(field)]: the values of the feature, [[]] when absent. *)
Fixpoint morph_get (m : list (string * list string)) (field : string)
  : list string :=
  match m with
  | [] => []
  | (k, v) :: r => if k == field then v else morph_get r field
  end.

(** Equality of lists of strings ([!=] on Python lists of [str]). *)
Fixpoint strs_eqb (a b : list string) : bool :=
  match a, b with
  | [], [] => true
  | x :: a', y :: b' => (x == y) && strs_eqb a' b'
  | _, _ => false
  end.

(** [tok.subtree]: the subtrees of the left children, the token, the
    subtrees of the right children. The recursion is bounded by [fuel];
    [length (toks d)] is enough for a tree, which is what a parser
    returns. On a cyclic head graph the generator of the library does not
    end, while this function stops when the fuel is spent. *)
Fixpoint subtree_fuel (fuel : nat) (d : Doc) (t : Token) : list Token :=
  match fuel with
  | O => [t]
  | S f =>
      (flat_map (subtree_fuel f d)
                (filter (fun c => i c <? i t) (children d t))
       ++ [t]
       ++ flat_map (subtree_fuel f d)
                   (filter (fun c => i t <? i c) (children d t)))%list
  end.

Definition subtree (d : Doc) (t : Token) : list Token :=
  subtree_fuel (length (toks d)) d t.

(* ===================================================================== *)
(** ** Helpers of the analysis                                            *)
(* ===================================================================== *)

Definition LINKING_LEMMAS : list string :=
  ["be"; "seem"; "become"; "appear"; "feel"; "look"; "sound"; "remain";
   "stay"; "grow"; "turn"; "smell"; "taste"].

Definition MODALS : list string :=
  ["can"; "could"; "may"; "might"; "must"; "shall"; "should"; "will";
   "would"].

Definition PARTICLE_POS : list string := ["PART"; "ADP"; "ADV"].

Definition is_aux (tok : Token) : bool :=
  (pos_ tok == "AUX") || (tag_ tok == "MD")
  || str_in (lemma_ tok) ["be"; "have"; "do"].

Definition aux_role (aux_tok head_tok : Token) : string :=
  if (tag_ aux_tok == "MD") || str_in (lemma_ aux_tok) MODALS then "modal"
  else if lemma_ aux_tok == "have" then "perfect"
  else
    let after_be :=
      if lemma_ aux_tok == "do" then "do-support" else "other" in
    if lemma_ aux_tok == "be" then
      if tag_ head_tok == "VBG" then "progressive"
      else if tag_ head_tok == "VBN" then "passive"
      else after_be
    else after_be.

(** [sorted(set(auxes), key=lambda x: x.i)]: tokens of one document are
    equal when their indices are. *)
Fixpoint dedup_by_i (l : list Token) : list Token :=
  match l with
  | [] => []
  | t :: r =>
      if existsb (fun u => i u =? i t) r then dedup_by_i r
      else t :: dedup_by_i r
  end.

Fixpoint insert_by_i (t : Token) (l : list Token) : list Token :=
  match l with
  | [] => [t]
  | u :: r => if i t <? i u then t :: u :: r else u :: insert_by_i t r
  end.

Definition sorted_by_i (l : list Token) : list Token :=
  fold_right insert_by_i [] l.

Definition collect_aux_chain (d : Doc) (tok : Token) : list string :=
  let auxes :=
    filter (fun c => str_in (dep_ c) ["aux"; "auxpass"]) (children d tok) in
  let md_before :=
    filter (fun t => (i (head_of d t) =? i tok) && (tag_ t == "MD"))
           (toks d) in
  map text (sorted_by_i (dedup_by_i (auxes ++ md_before)%list)).

Definition find_phrasal_particles (d : Doc) (verb_tok : Token)
  : list string :=
  map text
    (filter (fun c => str_in (dep_ c) ["prt"; "prep"; "advmod"]
                      && str_in (pos_ c) PARTICLE_POS
                      && (i verb_tok <? i c))
            (children d verb_tok)).

Definition has_object (d : Doc) (verb_tok : Token) : bool :=
  if existsb (fun c => str_in (dep_ c)
                         ["dobj"; "obj"; "attr"; "ccomp"; "xcomp"; "oprd"])
             (children d verb_tok)
  then true
  else if existsb (fun c => str_in (dep_ c) ["nsubjpass"])
                  (children d verb_tok)
  then true
  else false.

(* ===================================================================== *)
(** ** Classification records                                             *)
(* ===================================================================== *)

Record NounRec := {
  n_i : nat; n_text : string; n_lemma : string; n_type : string;
  n_concreteness : string; n_countability : string;
  n_collective : bool; n_possessive : bool; n_why : list string
}.

Definition NOUN_TAGS : list string := ["NN"; "NNS"; "NNP"; "NNPS"].

Definition noun_info (d : Doc) (tok : Token) : NounRec :=
  let txt := text tok in
  let is_proper := str_in (tag_ tok) ["NNP"; "NNPS"] in
  let is_plural := str_in (tag_ tok) ["NNS"; "NNPS"] in
  let possessive :=
    existsb (fun c => (dep_ c == "case") && (text c == "'s"))
            (children d tok)
    || (dep_ tok == "poss") in
  let concreteness :=
    if negb (ent_type_ tok == "") || startswith (tag_ tok) "NN"
    then "concrete" else "abstract" in
  let countability :=
    if is_plural || str_in (tag_ tok) NOUN_TAGS then "count"
    else "noncount" in
  let collective_examples :=
    ["team"; "committee"; "group"; "audience"; "family"; "staff"; "class";
     "crew"; "troop"; "jury"] in
  let collective := str_in (lower (lemma_ tok)) collective_examples in
  let why :=
    ([if is_proper then "Proper: capitalized name or title form."
      else "Common: general category word."]
     ++ (if possessive then ["Possessive form detected."] else [])
     ++ (if collective then ["Collective noun (group as a unit)."] else [])
    )%list in
  {| n_i := i tok; n_text := txt; n_lemma := lemma_ tok;
     n_type := if is_proper then "proper" else "common";
     n_concreteness := concreteness;
     n_countability := countability;
     n_collective := collective;
     n_possessive := possessive;
     n_why := match why with
              | [] => ["General noun usage in context."]
              | _ => why
              end |}.

Record PronRec := {
  p_i : nat; p_text : string; p_lemma : string; p_type : string;
  p_case : string; p_possessive_form : option string;
  p_reflexive_or_intensive : bool; p_why : list string
}.

Definition pronoun_info (tok : Token) : PronRec :=
  let txt := lower (text tok) in
  let personal_subj := ["i"; "we"; "you"; "he"; "she"; "they"; "it"] in
  let personal_obj := ["me"; "us"; "you"; "him"; "her"; "them"; "it"] in
  let possessive_abs := ["mine"; "yours"; "his"; "hers"; "ours"; "theirs"] in
  let possessive_dep :=
    ["my"; "your"; "his"; "her"; "our"; "their"; "its"] in
  let demonstratives := ["this"; "that"; "these"; "those"] in
  let interrogatives := ["who"; "whom"; "whose"; "which"; "what"] in
  let relatives := ["who"; "whom"; "whose"; "which"; "that"] in
  let reflexive :=
    ["myself"; "yourself"; "himself"; "herself"; "itself"; "ourselves";
     "yourselves"; "themselves"] in
  let mk ptype case poss_form refl why :=
    {| p_i := i tok; p_text := text tok; p_lemma := lemma_ tok;
       p_type := ptype; p_case := case; p_possessive_form := poss_form;
       p_reflexive_or_intensive := refl;
       p_why := match why with
                | [] => ["Pronoun identified by POS tag and context."]
                | _ => why
                end |} in
  if str_in txt personal_subj then
    mk "personal" "subjective" None false
       ["Personal pronoun (subjective case)."]
  else if str_in txt personal_obj then
    mk "personal" "objective" None false
       ["Personal pronoun (objective case)."]
  else if str_in txt possessive_abs then
    mk "possessive" "(n/a)" (Some "absolute") false
       ["Possessive pronoun (absolute)."]
  else if str_in txt possessive_dep then
    mk "possessive" "(n/a)" (Some "dependent") false
       ["Possessive determiner (dependent)."]
  else if str_in txt demonstratives then
    mk "demonstrative" "(n/a)" None false ["Demonstrative pronoun."]
  else if str_in txt interrogatives
          && str_in (dep_ tok) ["attr"; "pobj"; "dobj"; "nsubj"] then
    mk "interrogative" "(n/a)" None false ["Interrogative pronoun."]
  else if str_in txt relatives
          && str_in (dep_ tok)
                    ["relcl"; "nsubj"; "dobj"; "pobj"; "attr"; "relcl"] then
    mk "relative" "(n/a)" None false ["Relative pronoun within a clause."]
  else if str_in txt reflexive then
    mk "reflexive" "(n/a)" None true ["Reflexive/Intensive pronoun."]
  else
    mk (if (tag_ tok == "PRP$") || (tag_ tok == "PRP")
        then "indefinite" else "other")
       "(n/a)" None false [].

Record AdjRec := {
  adj_i : nat; adj_text : string; adj_lemma : string; adj_type : string;
  adj_degree : string; adj_why : list string
}.

Definition adjective_info (tok : Token) : AdjRec :=
  let deg0 := "positive" in
  let deg1 := if str_in (tag_ tok) ["JJR"] then "comparative" else deg0 in
  let deg := if str_in (tag_ tok) ["JJS"] then "superlative" else deg1 in
  let typ :=
    if first_isupper (text tok) && str_in (dep_ tok) ["amod"; "acomp"]
    then "proper" else "common" in
  {| adj_i := i tok; adj_text := text tok; adj_lemma := lemma_ tok;
     adj_type := typ; adj_degree := deg;
     adj_why := ["Adjective (" ++ tag_ tok ++ "); degree: " ++ deg ++ "."] |}.

Record AdvRec := {
  adv_i : nat; adv_text : string; adv_lemma : string; adv_modifies : string;
  adv_degree : string; adv_conjunctive : bool; adv_why : list string
}.

Definition CONJUNCTIVE_ADVERBS : list string :=
  ["however"; "therefore"; "moreover"; "consequently"; "nevertheless";
   "furthermore"; "thus"; "hence"; "meanwhile"].

Definition adverb_info (d : Doc) (tok : Token) : AdvRec :=
  let deg0 := "positive" in
  let deg1 := if tag_ tok == "RBR" then "comparative" else deg0 in
  let deg := if tag_ tok == "RBS" then "superlative" else deg1 in
  let conj_adv := str_in (lower (lemma_ tok)) CONJUNCTIVE_ADVERBS in
  let modifies :=
    if (dep_ tok == "advmod") && (pos_ (head_of d tok) == "ADJ")
    then "adjective"
    else if (dep_ tok == "advmod") && (pos_ (head_of d tok) == "ADV")
    then "adverb"
    else if (dep_ tok == "advmod")
            && str_in (pos_ (head_of d tok)) ["VERB"; "AUX"]
    then "verb"
    else if dep_ tok == "advcl" then "sentence"
    else "verb" in
  let why :=
    (["Adverb (" ++ tag_ tok ++ "); degree: " ++ deg ++ "."]%string
     ++ (if conj_adv then ["Conjunctive adverb (links clauses)."] else [])
    )%list in
  {| adv_i := i tok; adv_text := text tok; adv_lemma := lemma_ tok;
     adv_modifies := modifies; adv_degree := deg;
     adv_conjunctive := conj_adv; adv_why := why |}.

Record PrepRec := {
  prep_i : nat; prep_text : string; prep_lemma : string;
  prep_type : string; prep_why : list string
}.

Definition preposition_info (tok : Token) : PrepRec :=
  {| prep_i := i tok; prep_text := text tok; prep_lemma := lemma_ tok;
     prep_type := "preposition";
     prep_why := ["Preposition heads a PP or marks relation."] |}.

Record ConjRec := {
  c_i : nat; c_text : string; c_lemma : string; c_type : string;
  c_why : list string
}.

Definition conjunction_info (tok : Token) : ConjRec :=
  let lemma := lower (lemma_ tok) in
  let mk typ why :=
    {| c_i := i tok; c_text := text tok; c_lemma := lemma_ tok;
       c_type := typ; c_why := why |} in
  if str_in lemma ["for"; "and"; "nor"; "but"; "or"; "yet"; "so"] then
    mk "coordinating" ["Coordinating conjunction (FANBOYS)."]
  else if str_in lemma
            ["because"; "although"; "if"; "when"; "since"; "while"; "after";
             "before"; "though"; "unless"; "until"] then
    mk "subordinating"
       ["Subordinating conjunction (introduces dependent clause)."]
  else if str_in lemma
            ["however"; "therefore"; "moreover"; "consequently";
             "furthermore"; "nevertheless"] then
    mk "conjunctive_adverb" ["Conjunctive adverb connecting clauses."]
  else
    mk "other" ["Conjunction."].

Record IntjRec := {
  intj_i : nat; intj_text : string; intj_lemma : string;
  intj_is_interjection : bool; intj_why : list string
}.

Definition interjection_info (tok : Token) : IntjRec :=
  {| intj_i := i tok; intj_text := text tok; intj_lemma := lemma_ tok;
     intj_is_interjection := true;
     intj_why := ["Interjection expresses emotion/reaction."] |}.

(* ===================================================================== *)
(** ** The [/analyze] endpoint                                            *)
(* ===================================================================== *)

Record TokenView := {
  tv_i : nat; tv_text : string; tv_lemma : string; tv_pos : string;
  tv_tag : string; tv_dep : string
}.

Record VerbRec := {
  v_i : nat; v_text : string; v_lemma : string; v_pos : string;
  v_tag : string; v_aux_chain : list string; v_particles : list string;
  v_phrasal : string; v_transitivity : string; v_is_linking : bool;
  v_is_modal : bool; v_soa : string; v_why : list string
}.

Record AuxRec := {
  a_i : nat; a_text : string; a_lemma : string; a_pos : string;
  a_tag : string; a_role : string; a_head_text : option string;
  a_why : list string
}.

Record PosLabel := { l_i : nat; gold : string; l_why : list string }.

Record NounPhraseRec := {
  np_i : nat; np_head : string; np_span : string; np_role : string;
  np_has_det : bool; np_pp_postmod : bool; np_head_type : string;
  np_why : list string
}.

Record ClauseRec := {
  cl_i : nat; cl_text : string; cl_type : string; cl_finite : bool;
  cl_has_marker : bool; cl_why : list string
}.

(** The nine bucket lists and the label list that the dispatching loop of
    [analyze] appends to. *)
Record Buckets := {
  verbs : list VerbRec;
  auxiliaries : list AuxRec;
  nouns : list NounRec;
  pronouns : list PronRec;
  adjectives : list AdjRec;
  adverbs : list AdvRec;
  prepositions : list PrepRec;
  conjunctions : list ConjRec;
  interjections : list IntjRec;
  pos_labels : list PosLabel
}.

Definition no_buckets : Buckets :=
  {| verbs := []; auxiliaries := []; nouns := []; pronouns := [];
     adjectives := []; adverbs := []; prepositions := [];
     conjunctions := []; interjections := []; pos_labels := [] |}.

(** The response: [text], [tokens], the buckets and labels, [noun_phrases]
    and [clauses]. *)
Record AnalyzeOut := {
  out_text : string;
  tokens : list TokenView;
  buckets : Buckets;
  noun_phrases : list NounPhraseRec;
  clauses : list ClauseRec
}.

Definition token_view (t : Token) : TokenView :=
  {| tv_i := i t; tv_text := text t; tv_lemma := lemma_ t; tv_pos := pos_ t;
     tv_tag := tag_ t; tv_dep := dep_ t |}.

(** [t.head if t.head else t]. *)
Definition head_or_self (d : Doc) (t : Token) : Token :=
  if truthy (head_of d t) then head_of d t else t.

Definition aux_record (d : Doc) (t : Token) : AuxRec :=
  let role := aux_role t (head_or_self d t) in
  {| a_i := i t; a_text := text t; a_lemma := lemma_ t; a_pos := pos_ t;
     a_tag := tag_ t; a_role := role;
     a_head_text :=
       if truthy (head_of d t) then Some (text (head_of d t)) else None;
     a_why := ["Auxiliary (" ++ role ++ ")."] |}.

Definition aux_label (d : Doc) (t : Token) : PosLabel :=
  let role := aux_role t (head_or_self d t) in
  {| l_i := i t; gold := "auxiliary";
     l_why := ["Auxiliary '" ++ text t ++ "' (" ++ role ++ ")."] |}.

Definition verb_record (d : Doc) (t : Token) : VerbRec :=
  let particles := find_phrasal_particles d t in
  let phrasal :=
    match particles with
    | [] => text t
    | _ => join_sp (text t :: particles)
    end in
  let trans := if has_object d t then "transitive" else "intransitive" in
  let is_link :=
    str_in (lemma_ t) LINKING_LEMMAS
    && str_in (dep_ t)
              ["ROOT"; "xcomp"; "ccomp"; "acomp"; "attr"; "relcl"; "conj"] in
  let soa :=
    if is_link then "state"
    else if str_in (lemma_ t) ["happen"; "occur"; "arise"] then "occurrence"
    else "action" in
  {| v_i := i t; v_text := text t; v_lemma := lemma_ t; v_pos := pos_ t;
     v_tag := tag_ t;
     v_aux_chain := collect_aux_chain d t;
     v_particles := particles; v_phrasal := phrasal;
     v_transitivity := trans; v_is_linking := is_link; v_is_modal := false;
     v_soa := soa;
     v_why :=
       ["Verb detected (" ++ tag_ t ++ ").";
        "Phrasal particles: "
          ++ match particles with
             | [] => "none"
             | _ => join_sp particles
             end ++ ".";
        "Transitivity: " ++ trans ++ ".";
        if is_link then "Linking verb (state)"
        else "Action/occurrence based on context."] |}.

Definition label (t : Token) (g : string) (why : list string) : PosLabel :=
  {| l_i := i t; gold := g; l_why := why |}.

Section Append.
Variable st : Buckets.

Definition add_label (l : PosLabel) : Buckets :=
  {| verbs := verbs st; auxiliaries := auxiliaries st; nouns := nouns st;
     pronouns := pronouns st; adjectives := adjectives st;
     adverbs := adverbs st; prepositions := prepositions st;
     conjunctions := conjunctions st; interjections := interjections st;
     pos_labels := (pos_labels st ++ [l])%list |}.

Definition add_verb (r : VerbRec) : Buckets :=
  {| verbs := (verbs st ++ [r])%list; auxiliaries := auxiliaries st;
     nouns := nouns st; pronouns := pronouns st;
     adjectives := adjectives st; adverbs := adverbs st;
     prepositions := prepositions st; conjunctions := conjunctions st;
     interjections := interjections st; pos_labels := pos_labels st |}.

Definition add_auxiliary (r : AuxRec) : Buckets :=
  {| verbs := verbs st; auxiliaries := (auxiliaries st ++ [r])%list;
     nouns := nouns st; pronouns := pronouns st;
     adjectives := adjectives st; adverbs := adverbs st;
     prepositions := prepositions st; conjunctions := conjunctions st;
     interjections := interjections st; pos_labels := pos_labels st |}.

Definition add_noun (r : NounRec) : Buckets :=
  {| verbs := verbs st; auxiliaries := auxiliaries st;
     nouns := (nouns st ++ [r])%list; pronouns := pronouns st;
     adjectives := adjectives st; adverbs := adverbs st;
     prepositions := prepositions st; conjunctions := conjunctions st;
     interjections := interjections st; pos_labels := pos_labels st |}.

Definition add_pronoun (r : PronRec) : Buckets :=
  {| verbs := verbs st; auxiliaries := auxiliaries st; nouns := nouns st;
     pronouns := (pronouns st ++ [r])%list; adjectives := adjectives st;
     adverbs := adverbs st; prepositions := prepositions st;
     conjunctions := conjunctions st; interjections := interjections st;
     pos_labels := pos_labels st |}.

Definition add_adjective (r : AdjRec) : Buckets :=
  {| verbs := verbs st; auxiliaries := auxiliaries st; nouns := nouns st;
     pronouns := pronouns st; adjectives := (adjectives st ++ [r])%list;
     adverbs := adverbs st; prepositions := prepositions st;
     conjunctions := conjunctions st; interjections := interjections st;
     pos_labels := pos_labels st |}.

Definition add_adverb (r : AdvRec) : Buckets :=
  {| verbs := verbs st; auxiliaries := auxiliaries st; nouns := nouns st;
     pronouns := pronouns st; adjectives := adjectives st;
     adverbs := (adverbs st ++ [r])%list; prepositions := prepositions st;
     conjunctions := conjunctions st; interjections := interjections st;
     pos_labels := pos_labels st |}.

Definition add_preposition (r : PrepRec) : Buckets :=
  {| verbs := verbs st; auxiliaries := auxiliaries st; nouns := nouns st;
     pronouns := pronouns st; adjectives := adjectives st;
     adverbs := adverbs st; prepositions := (prepositions st ++ [r])%list;
     conjunctions := conjunctions st; interjections := interjections st;
     pos_labels := pos_labels st |}.

Definition add_conjunction (r : ConjRec) : Buckets :=
  {| verbs := verbs st; auxiliaries := auxiliaries st; nouns := nouns st;
     pronouns := pronouns st; adjectives := adjectives st;
     adverbs := adverbs st; prepositions := prepositions st;
     conjunctions := (conjunctions st ++ [r])%list;
     interjections := interjections st; pos_labels := pos_labels st |}.

Definition add_interjection (r : IntjRec) : Buckets :=
  {| verbs := verbs st; auxiliaries := auxiliaries st; nouns := nouns st;
     pronouns := pronouns st; adjectives := adjectives st;
     adverbs := adverbs st; prepositions := prepositions st;
     conjunctions := conjunctions st;
     interjections := (interjections st ++ [r])%list;
     pos_labels := pos_labels st |}.
End Append.

(** One iteration of the dispatching loop ([for t in doc]): the first test
    that holds decides, and the iteration ends there ([continue]). *)
Definition dispatch (d : Doc) (st : Buckets) (t : Token) : Buckets :=
  if is_aux t then
    add_label (add_auxiliary st (aux_record d t)) (aux_label d t)
  else if pos_ t == "VERB" then
    add_label (add_verb st (verb_record d t))
              (label t "verb" ["Main verb '" ++ text t ++ "'."])
  else if (pos_ t == "NOUN") || str_in (tag_ t) NOUN_TAGS then
    let info := noun_info d t in
    add_label (add_noun st info) (label t "noun" (n_why info))
  else if pos_ t == "PRON" then
    let info := pronoun_info t in
    add_label (add_pronoun st info) (label t "pronoun" (p_why info))
  else if pos_ t == "ADJ" then
    let info := adjective_info t in
    add_label (add_adjective st info) (label t "adjective" (adj_why info))
  else if pos_ t == "ADV" then
    let info := adverb_info d t in
    add_label (add_adverb st info) (label t "adverb" (adv_why info))
  else if pos_ t == "ADP" then
    let info := preposition_info t in
    add_label (add_preposition st info)
              (label t "preposition" (prep_why info))
  else if (pos_ t == "CCONJ") || (pos_ t == "SCONJ") then
    let info := conjunction_info t in
    add_label (add_conjunction st info) (label t "conjunction" (c_why info))
  else if pos_ t == "INTJ" then
    let info := interjection_info t in
    add_label (add_interjection st info)
              (label t "interjection" (intj_why info))
  else
    add_label st (label t "other" ["Not a core POS in this game."]).

Definition pos_buckets (d : Doc) : Buckets :=
  fold_left (dispatch d) (toks d) no_buckets.

(** [for t in np]: the tokens of the span. *)
Definition span_tokens (d : Doc) (np : Span) : list Token :=
  firstn (end_ np - start np) (skipn (start np) (toks d)).

Definition noun_phrase (d : Doc) (np : Span) : NounPhraseRec :=
  let head := root np in
  let has_det := existsb (fun t => dep_ t == "det") (span_tokens d np) in
  let pp_post := existsb (fun t => dep_ t == "prep") (span_tokens d np) in
  let head_type :=
    if str_in (tag_ head) ["NNP"; "NNPS"] then "proper" else "common" in
  let role :=
    if str_in (dep_ head) ["nsubj"; "nsubjpass"] then "subject"
    else if str_in (dep_ head) ["dobj"; "obj"] then "object"
    else if dep_ head == "pobj" then "object_of_preposition"
    else "other" in
  {| np_i := i head; np_head := text head; np_span := span_text np;
     np_role := role; np_has_det := has_det; np_pp_postmod := pp_post;
     np_head_type := head_type;
     np_why := ["Head '" ++ text head ++ "' with NP span '"
                ++ span_text np ++ "'."] |}.

(** The noun-phrase part of [analyze]: [doc.noun_chunks] is read only when
    the document has the dependency annotation; reading it may raise
    ([None]). *)
Definition noun_phrases_of (d : Doc) : option (list NounPhraseRec) :=
  if has_annotation_DEP d then
    match noun_chunks d with
    | Some chunks => Some (map (noun_phrase d) chunks)
    | None => None
    end
  else Some [].

Definition DEPENDENT_CLAUSE_DEPS : list string :=
  ["ccomp"; "xcomp"; "advcl"; "relcl"].

Definition independent_clause (d : Doc) (t : Token) : ClauseRec :=
  {| cl_i := i t; cl_text := join_sp (map text (subtree d t));
     cl_type := "independent"; cl_finite := true; cl_has_marker := false;
     cl_why := ["Root predicate => independent clause."] |}.

Definition dependent_clause (d : Doc) (t : Token) : ClauseRec :=
  let cl_type :=
    if dep_ t == "advcl" then "adverbial"
    else if dep_ t == "relcl" then "relative"
    else "complement" in
  let has_marker :=
    existsb (fun ch => str_in (dep_ ch) ["mark"; "complm"; "relcl"])
            (children d t) in
  {| cl_i := i t; cl_text := join_sp (map text (subtree d t));
     cl_type := cl_type;
     cl_finite := negb (strs_eqb (morph_get (morph t) "VerbForm") ["Inf"]);
     cl_has_marker := has_marker;
     cl_why := [dep_ t ++ " attached to " ++ text (head_of d t) ++ "."] |}.

(** The two tests of the clause loop. *)
Definition is_root_predicate (t : Token) : bool :=
  (dep_ t == "ROOT") && str_in (pos_ t) ["VERB"; "AUX"].

Definition is_dependent_clause (t : Token) : bool :=
  str_in (dep_ t) DEPENDENT_CLAUSE_DEPS.

(** One iteration of the clause loop: two independent [if]s, each of which
    may append a record. *)
Definition clause_records (d : Doc) (t : Token) : list ClauseRec :=
  ((if is_root_predicate t then [independent_clause d t] else [])
   ++ (if is_dependent_clause t then [dependent_clause d t] else []))%list.

Definition clauses_of (d : Doc) : list ClauseRec :=
  flat_map (clause_records d) (toks d).

Section Analyze.
(** The parser, [nlp = spacy.load(MODEL_NAME)]. *)
Variable nlp : string -> Doc.

(** [analyze(text)] once the parser has returned its document; [None]
    when an exception leaves the function after that. A failure of
    [nlp(text)] itself ends the call before any of this code runs and is
    not part of the model. *)
Definition analyze (text_in : string) : option AnalyzeOut :=
  let doc := nlp text_in in
  match noun_phrases_of doc with
  | None => None
  | Some nps =>
      Some {| out_text := text_in;
              tokens := map token_view (toks doc);
              buckets := pos_buckets doc;
              noun_phrases := nps;
              clauses := clauses_of doc |}
  end.
End Analyze.

(* ===================================================================== *)
(** ** The [/sentence] endpoint                                           *)
(* ===================================================================== *)

Definition LOCAL_SENTENCES : list string :=
  ["Wow! That absolutely crushed the previous record.";
   "She checked out of the hotel early this morning.";
   "The committee has been reviewing the proposal for weeks.";
   "Those quickly written notes were surprisingly clear.";
   "After the storm, the lights finally came back on.";
   "I will look into the issue tomorrow.";
   "The red car in the driveway belongs to my neighbor.";
   "Because it was raining, we decided to stay inside.";
   "Please hand in your assignments by Friday.";
   "They might have been waiting for the bus."].

Module Py.

(** The exceptions the code can meet; all derive from [Exception]. *)
Inductive exn :=
| AttributeError | TypeError | KeyError | IndexError
| RequestException | JSONDecodeError.

(** A computation that returns or raises. *)
Inductive res (A : Type) :=
| Ret (a : A)
| Raise (e : exn).
Arguments Ret {A} a.
Arguments Raise {A} e.

Definition bind {A B} (c : res A) (k : A -> res B) : res B :=
  match c with
  | Ret a => k a
  | Raise e => Raise e
  end.

(** [try: c  except Exception: pass], where [c] yields [Some v] when it
    executes [return v] and [None] when it runs to its end. *)
Definition try_pass {A} (c : res (option A)) : option A :=
  match c with
  | Ret o => o
  | Raise _ => None
  end.

#[local] Set Warnings "-register-all".

(** A decoded JSON value ([r.json()]): [None], [bool], a number, [str],
    [list], [dict] (keys are strings and distinct). *)
Inductive value :=
| VNone
| VBool (b : bool)
| VNum (z : Z)
| VStr (s : string)
| VList (l : list value)
| VDict (kv : list (string * value)).

Definition truth (v : value) : bool :=
  match v with
  | VNone => false
  | VBool b => b
  | VNum z => negb (z =? 0)%Z
  | VStr s => negb (s == "")
  | VList l => match l with [] => false | _ => true end
  | VDict kv => match kv with [] => false | _ => true end
  end.

Fixpoint lookup (kv : list (string * value)) (k : string) : option value :=
  match kv with
  | [] => None
  | (k', v) :: r => if k' == k then Some v else lookup r k
  end.

(** [v.get(k)]: only a [dict] has the method. *)
Definition get (v : value) (k : string) : res value :=
  match v with
  | VDict kv => Ret (match lookup kv k with Some x => x | None => VNone end)
  | _ => Raise AttributeError
  end.

(** [v[k]] with a string [k]. *)
Definition item (v : value) (k : string) : res value :=
  match v with
  | VDict kv =>
      match lookup kv k with Some x => Ret x | None => Raise KeyError end
  | _ => Raise TypeError
  end.

(** [v[0]]. *)
Definition item0 (v : value) : res value :=
  match v with
  | VList (x :: _) => Ret x
  | VList [] => Raise IndexError
  | VStr (String c _) => Ret (VStr (String c EmptyString))
  | VStr EmptyString => Raise IndexError
  | VDict _ => Raise KeyError
  | _ => Raise TypeError
  end.

(** [a or b]. *)
Definition or_ (a b : value) : value := if truth a then a else b.

(** [random.choice(l)], drawing the index [r mod len(l)]. *)
Definition choice (r : nat) (l : list string) : res string :=
  match l with
  | [] => Raise IndexError
  | x :: _ => Ret (nth (r mod length l) l x)
  end.

End Py.
Import Py.

Notation "x <- c ;; k" := (Py.bind c (fun x => k))
  (at level 61, c at next level, right associativity).

(** An HTTP response: what [r.json()] does. *)
Record Response := { json : res value }.

(** What the function meets outside itself: the outcome of each
    [requests.get] (raising covers connection errors and time-outs), the
    environment variable and the random draw. *)
Record World := {
  get_tatoeba : res Response;
  WORDNIK_API_KEY : option string;
  get_random_word : string -> res Response;
  get_examples : value -> string -> res Response;
  draw : nat
}.

Record SentenceOut := { s_text : value; s_source : string }.

Definition tatoeba_try (w : World) : res (option SentenceOut) :=
  r <- get_tatoeba w ;;
  j <- json r ;;
  results <- get j "results" ;;
  if truth results then
    results' <- item j "results" ;;
    first <- item0 results' ;;
    txt <- item first "text" ;;
    Ret (Some {| s_text := txt; s_source := "tatoeba" |})
  else Ret None.

Definition wordnik_try (w : World) (key : string)
  : res (option SentenceOut) :=
  r <- get_random_word w key ;;
  j <- json r ;;
  base <- get j "word" ;;
  if truth base then
    r2 <- get_examples w base key ;;
    ex <- json r2 ;;
    e <- get ex "examples" ;;
    let examples := or_ e (VList []) in
    if truth examples then
      first <- item0 examples ;;
      t <- get first "text" ;;
      let txt := or_ t base in
      Ret (Some {| s_text := txt; s_source := "wordnik" |})
    else Ret None
  else Ret None.

Definition local_fallback (w : World) : res SentenceOut :=
  s <- choice (draw w) LOCAL_SENTENCES ;;
  Ret {| s_text := VStr s; s_source := "local" |}.

Definition sentence (source : string) (w : World) : res SentenceOut :=
  match (if source == "tatoeba" then try_pass (tatoeba_try w) else None) with
  | Some out => Ret out
  | None =>
      match (if source == "wordnik" then
               match WORDNIK_API_KEY w with
               | Some key =>
                   if negb (key == "") then try_pass (wordnik_try w key)
                   else None
               | None => None
               end
             else None) with
      | Some out => Ret out
      | None => local_fallback w
      end
  end.

(* ===================================================================== *)
(** ** The partition of the tokens                                        *)
(* ===================================================================== *)

(** The nine bucket lists of the response. *)
Inductive Bucket :=
| Verbs | Auxiliaries | Nouns | Pronouns | Adjectives | Adverbs
| Prepositions | Conjunctions | Interjections.

Definition all_buckets : list Bucket :=
  [Verbs; Auxiliaries; Nouns; Pronouns; Adjectives; Adverbs; Prepositions;
   Conjunctions; Interjections].

(** The key of a bucket in the response. *)
Definition bucket_key (B : Bucket) : string :=
  match B with
  | Verbs => "verbs" | Auxiliaries => "auxiliaries" | Nouns => "nouns"
  | Pronouns => "pronouns" | Adjectives => "adjectives"
  | Adverbs => "adverbs" | Prepositions => "prepositions"
  | Conjunctions => "conjunctions" | Interjections => "interjections"
  end.

(** The [gold] label that names a bucket. *)
Definition gold_name (B : Bucket) : string :=
  match B with
  | Verbs => "verb" | Auxiliaries => "auxiliary" | Nouns => "noun"
  | Pronouns => "pronoun" | Adjectives => "adjective" | Adverbs => "adverb"
  | Prepositions => "preposition" | Conjunctions => "conjunction"
  | Interjections => "interjection"
  end.

(** The token indices (field ["i"]) of the records of a bucket, in order. *)
Definition indices (b : Buckets) (B : Bucket) : list nat :=
  match B with
  | Verbs => map v_i (verbs b)
  | Auxiliaries => map a_i (auxiliaries b)
  | Nouns => map n_i (nouns b)
  | Pronouns => map p_i (pronouns b)
  | Adjectives => map adj_i (adjectives b)
  | Adverbs => map adv_i (adverbs b)
  | Prepositions => map prep_i (prepositions b)
  | Conjunctions => map c_i (conjunctions b)
  | Interjections => map intj_i (interjections b)
  end.

(** The indices labelled ["other"] in [pos_labels]. *)
Definition other_indices (b : Buckets) : list nat :=
  map l_i (filter (fun l => gold l == "other") (pos_labels b)).

(** Every placement: the nine buckets one after the other, then the
    residual. *)
Definition placements (b : Buckets) : list nat :=
  (flat_map (indices b) all_buckets ++ other_indices b)%list.

(** The partition of the indices [0 .. n-1]: the placements are these
    indices in some order and without repetition, every index is placed,
    none is in two buckets, none is in a bucket and labelled ["other"]. *)
Definition partitioned (b : Buckets) (n : nat) : Prop :=
  Permutation (placements b) (seq 0 n)
  /\ NoDup (placements b)
  /\ (forall k, k < n ->
        (exists B, In k (indices b B)) \/ In k (other_indices b))
  /\ (forall k B1 B2,
        In k (indices b B1) -> In k (indices b B2) -> B1 = B2)
  /\ (forall k B, In k (indices b B) -> ~ In k (other_indices b)).

(** The indices of the labels whose [gold] is [g]. *)
Definition labelled (b : Buckets) (g : string) : list nat :=
  map l_i (filter (fun l => gold l == g) (pos_labels b)).

(** The label the dispatcher gives a token. *)
Definition gold_of (t : Token) : string :=
  if is_aux t then "auxiliary"
  else if pos_ t == "VERB" then "verb"
  else if (pos_ t == "NOUN") || str_in (tag_ t) NOUN_TAGS then "noun"
  else if pos_ t == "PRON" then "pronoun"
  else if pos_ t == "ADJ" then "adjective"
  else if pos_ t == "ADV" then "adverb"
  else if pos_ t == "ADP" then "preposition"
  else if (pos_ t == "CCONJ") || (pos_ t == "SCONJ") then "conjunction"
  else if pos_ t == "INTJ" then "interjection"
  else "other".

(** Every token of [T] is placed where the tests of the dispatcher send
    it: its index is in the bucket named by its label, and is labelled
    ["other"] exactly when no test holds. *)
Definition placed_by_tests (T : list Token) (b : Buckets) : Prop :=
  forall t, In t T ->
    (forall B, In (i t) (indices b B) <-> gold_of t = gold_name B)
    /\ (In (i t) (other_indices b) <-> gold_of t = "other").

(** The labels of the response run parallel to the input tokens [T]: one
    label per token, in the order of the tokens; the label of the token at
    position [k] carries the index [k] and the label the dispatcher gives
    that token, and its [gold] names the bucket that holds [k] (["other"]
    when none does). *)
Definition labels_parallel (T : list Token) (out : AnalyzeOut) : Prop :=
  let b := buckets out in
  tokens out = map token_view T
  /\ length (pos_labels b) = length T
  /\ map l_i (pos_labels b) = map i T
  /\ forall k t,
      nth_error T k = Some t ->
      exists lab,
        nth_error (pos_labels b) k = Some lab
        /\ l_i lab = k
        /\ gold lab = gold_of t
        /\ (forall B, In k (indices b B) <-> gold lab = gold_name B)
        /\ (gold lab = "other" <-> forall B, ~ In k (indices b B)).


(* ===================================================================== *)
(** ** A parsed sentence to run the definitions on                        *)
(* ===================================================================== *)

Definition tok (k : nat) (tx lem ps tg dp : string) (h : nat) : Token :=
  {| i := k; text := tx; lemma_ := lem; pos_ := ps; tag_ := tg; dep_ := dp;
     head := h; morph := []; ent_type_ := "" |}.

Definition blank : Token := tok 0 "" "" "" "" "" 0.

(** "They might have been waiting for the bus." *)
Definition waiting_toks : list Token :=
  [tok 0 "They" "they" "PRON" "PRP" "nsubj" 4;
   tok 1 "might" "might" "AUX" "MD" "aux" 4;
   tok 2 "have" "have" "AUX" "VB" "aux" 4;
   tok 3 "been" "be" "AUX" "VBN" "aux" 4;
   tok 4 "waiting" "wait" "VERB" "VBG" "ROOT" 4;
   tok 5 "for" "for" "ADP" "IN" "prep" 4;
   tok 6 "the" "the" "DET" "DT" "det" 7;
   tok 7 "bus" "bus" "NOUN" "NN" "pobj" 5;
   tok 8 "." "." "PUNCT" "." "punct" 4].

Definition waiting_doc : Doc :=
  {| toks := waiting_toks;
     has_annotation_DEP := true;
     noun_chunks :=
       Some [ {| start := 0; end_ := 1; root := nth 0 waiting_toks blank;
                 span_text := "They" |};
              {| start := 6; end_ := 8; root := nth 7 waiting_toks blank;
                 span_text := "the bus" |} ] |}.

Definition waiting_text : string :=
  "They might have been waiting for the bus.".

Definition waiting_nlp (text_in : string) : Doc := waiting_doc.

(** "She has a car.": the parser tags this "has" as a main verb. *)
Definition has_toks : list Token :=
  [tok 0 "She" "she" "PRON" "PRP" "nsubj" 1;
   tok 1 "has" "have" "VERB" "VBZ" "ROOT" 1;
   tok 2 "a" "a" "DET" "DT" "det" 3;
   tok 3 "car" "car" "NOUN" "NN" "dobj" 1;
   tok 4 "." "." "PUNCT" "." "punct" 1].

Definition has_doc : Doc :=
  {| toks := has_toks; has_annotation_DEP := true; noun_chunks := Some [] |}.

Definition has_nlp (text_in : string) : Doc := has_doc.

(** "She became a doctor.": the verb has an attribute and no object. *)
Definition became_toks : list Token :=
  [tok 0 "She" "she" "PRON" "PRP" "nsubj" 1;
   tok 1 "became" "become" "VERB" "VBD" "ROOT" 1;
   tok 2 "a" "a" "DET" "DT" "det" 3;
   tok 3 "doctor" "doctor" "NOUN" "NN" "attr" 1;
   tok 4 "." "." "PUNCT" "." "punct" 1].

Definition became_doc : Doc :=
  {| toks := became_toks; has_annotation_DEP := true;
     noun_chunks := Some [] |}.

Definition became_nlp (text_in : string) : Doc := became_doc.

(** [c] is a direct child of [t] in the dependency tree of [d]. *)
Definition is_child (d : Doc) (t c : Token) : Prop :=
  In c (toks d) /\ i (head_of d c) = i t /\ i c <> i t.

(** [t] has a child attached by one of the relations [deps]. *)
Definition has_child_via (d : Doc) (t : Token) (deps : list string) : Prop :=
  exists c, is_child d t c /\ In (dep_ c) deps.

(** The relations the specification lists for transitivity: direct object,
    clausal complement, open complement, object predicate, passive
    subject. *)
Definition LISTED_OBJECT_DEPS : list string :=
  ["dobj"; "obj"; "ccomp"; "xcomp"; "oprd"; "nsubjpass"].

(** The relations [has_object] looks for: the listed ones and the
    attribute. *)
Definition OBJECT_DEPS : list string :=
  ["dobj"; "obj"; "attr"; "ccomp"; "xcomp"; "oprd"; "nsubjpass"].

(** [t] is a main verb for the dispatcher: not an auxiliary, coarse tag
    [VERB]. *)
Definition main_verb (t : Token) : Prop :=
  is_aux t = false /\ pos_ t = "VERB".

(** "It rained, thus we stayed." with "thus" tagged as a conjunction. *)
Definition thus_toks : list Token :=
  [tok 0 "It" "it" "PRON" "PRP" "nsubj" 1;
   tok 1 "rained" "rain" "VERB" "VBD" "ROOT" 1;
   tok 2 "," "," "PUNCT" "," "punct" 1;
   tok 3 "thus" "thus" "CCONJ" "CC" "cc" 1;
   tok 4 "we" "we" "PRON" "PRP" "nsubj" 5;
   tok 5 "stayed" "stay" "VERB" "VBD" "conj" 1;
   tok 6 "." "." "PUNCT" "." "punct" 1].

Definition thus_doc : Doc :=
  {| toks := thus_toks; has_annotation_DEP := true; noun_chunks := Some [] |}.

Definition thus_nlp (text_in : string) : Doc := thus_doc.

(** "I want to go.", with an infinitive open complement. *)
Definition want_toks : list Token :=
  [tok 0 "I" "I" "PRON" "PRP" "nsubj" 1;
   tok 1 "want" "want" "VERB" "VBP" "ROOT" 1;
   tok 2 "to" "to" "PART" "TO" "aux" 3;
   {| i := 3; text := "go"; lemma_ := "go"; pos_ := "VERB"; tag_ := "VB";
      dep_ := "xcomp"; head := 1; morph := [("VerbForm", ["Inf"])];
      ent_type_ := "" |};
   tok 4 "." "." "PUNCT" "." "punct" 1].

Definition want_doc : Doc :=
  {| toks := want_toks; has_annotation_DEP := true; noun_chunks := Some [] |}.

Definition want_nlp (text_in : string) : Doc := want_doc.

(** A tagged sentence without dependency parse: every token is its own
    head, the relation is empty, and reading the noun chunks raises. *)
Definition untagged_toks : list Token :=
  [tok 0 "Dogs" "dog" "NOUN" "NNS" "" 0;
   tok 1 "bark" "bark" "VERB" "VBP" "" 1;
   tok 2 "." "." "PUNCT" "." "" 2].

Definition untagged_doc : Doc :=
  {| toks := untagged_toks; has_annotation_DEP := false;
     noun_chunks := None |}.

Definition untagged_nlp (text_in : string) : Doc := untagged_doc.

(** *** The role rules of the specification *)

(** The result of the first rule whose test holds; [dflt] when none
    does. *)
Fixpoint first_match (rules : list (bool * string)) (dflt : string)
  : string :=
  match rules with
  | [] => dflt
  | (test, result) :: r => if test then result else first_match r dflt
  end.

(** The rules for the role of the auxiliary [a] with head [h], in their
    priority order. *)
Definition role_rules (a h : Token) : list (bool * string) :=
  [ ((tag_ a == "MD") || str_in (lemma_ a) MODALS, "modal");
    (lemma_ a == "have", "perfect");
    ((lemma_ a == "be") && (tag_ h == "VBG"), "progressive");
    ((lemma_ a == "be") && (tag_ h == "VBN"), "passive");
    (lemma_ a == "do", "do-support") ].

Definition role_by_priority (a h : Token) : string :=
  first_match (role_rules a h) "other".

(** *** Failures of the external sentence services *)




(** A world in which nothing outside answers: the request to Tatoeba
    times out and no Wordnik key is configured. *)
Definition offline : World :=
  {| get_tatoeba := Raise RequestException;
     WORDNIK_API_KEY := None;
     get_random_word := fun _ => Raise RequestException;
     get_examples := fun _ _ => Raise RequestException;
     draw := 13 |}.

(* ===================================================================== *)
(** ** Further notions for the properties of the helpers                  *)
(* ===================================================================== *)

From Stdlib Require Import Sorted.

(** Strictly increasing indices: document order, no index twice. *)
Definition increasing (l : list nat) : Prop := StronglySorted lt l.

(** The tokens [collect_aux_chain] gathers for [tok]: its children attached
    as [aux] or [auxpass], and the modals whose head is [tok]. *)
Definition in_aux_chain (d : Doc) (tok t : Token) : bool :=
  ((i (head_of d t) =? i tok) && negb (i t =? i tok)
   && str_in (dep_ t) ["aux"; "auxpass"])
  || ((i (head_of d t) =? i tok) && (tag_ t == "MD")).

(** The values of [gold]. *)
Definition GOLD_VALUES : list string :=
  ["verb"; "auxiliary"; "noun"; "pronoun"; "adjective"; "adverb";
   "preposition"; "conjunction"; "interjection"; "other"].

Definition AUX_ROLES : list string :=
  ["modal"; "perfect"; "progressive"; "passive"; "do-support"; "other"].

(** "London sleeps.": the parser gives a proper noun the coarse tag
    [PROPN] and the fine tag [NNP]. *)
Definition london_toks : list Token :=
  [tok 0 "London" "London" "PROPN" "NNP" "nsubj" 1;
   tok 1 "sleeps" "sleep" "VERB" "VBZ" "ROOT" 1;
   tok 2 "." "." "PUNCT" "." "punct" 1].

Definition london_doc : Doc :=
  {| toks := london_toks; has_annotation_DEP := true;
     noun_chunks :=
       Some [ {| start := 0; end_ := 1; root := nth 0 london_toks blank;
                 span_text := "London" |} ] |}.

Definition london_nlp (text_in : string) : Doc := london_doc.

(** The parse of the empty string. *)
Definition empty_doc : Doc :=
  {| toks := []; has_annotation_DEP := true; noun_chunks := Some [] |}.

Definition empty_nlp (text_in : string) : Doc := empty_doc.

(** A world in which Tatoeba answers with one sentence. *)
Definition tatoeba_body : value :=
  VDict [("paging", VDict []);
         ("results", VList [VDict [("id", VNum 7); ("text", VStr "Hello.")]])].

Definition tatoeba_up : World :=
  {| get_tatoeba := Ret {| json := Ret tatoeba_body |};
     WORDNIK_API_KEY := None;
     get_random_word := fun _ => Raise RequestException;
     get_examples := fun _ _ => Raise RequestException;
     draw := 0 |}.

(** A world in which Wordnik answers with a word and an example that has
    no text. *)
Definition wordnik_up : World :=
  {| get_tatoeba := Raise RequestException;
     WORDNIK_API_KEY := Some "k3y";
     get_random_word :=
       fun _ => Ret {| json := Ret (VDict [("id", VNum 1);
                                           ("word", VStr "lantern")]) |};
     get_examples :=
       fun _ _ =>
         Ret {| json :=
                  Ret (VDict [("examples", VList [VDict [("year", VNum 1900)]])])
             |};
     draw := 0 |}.


Lemma gold_of_cases (t : Token) :
  gold_of t = "other" \/ exists B, gold_of t = gold_name B.
Proof.
  unfold gold_of.
  repeat match goal with
         | |- context [if ?c then _ else _] => destruct c
         end;
    first [ now left
          | right;
            first [ now exists Verbs | now exists Auxiliaries
                  | now exists Nouns | now exists Pronouns
                  | now exists Adjectives | now exists Adverbs
                  | now exists Prepositions | now exists Conjunctions
                  | now exists Interjections ] ].
Qed.

Lemma pronoun_info_i (t : Token) : p_i (pronoun_info t) = i t.
Proof.
  unfold pronoun_info.
  repeat match goal with
         | |- context [if ?c then _ else _] => destruct c
         end; reflexivity.
Qed.

Lemma conjunction_info_i (t : Token) : c_i (conjunction_info t) = i t.
Proof.
  unfold conjunction_info.
  repeat match goal with
         | |- context [if ?c then _ else _] => destruct c
         end; reflexivity.
Qed.

(** One iteration appends one label, carrying the token's index and
    [gold_of], and one record to the bucket that label names. *)
Lemma dispatch_step (d : Doc) (st : Buckets) (t : Token) :
  exists lab,
    pos_labels (dispatch d st t) = (pos_labels st ++ [lab])%list
    /\ l_i lab = i t
    /\ gold lab = gold_of t
    /\ forall B,
        indices (dispatch d st t) B
        = (indices st B
           ++ if gold_of t == gold_name B then [i t] else [])%list.
Proof.
  unfold dispatch, gold_of.
  repeat match goal with
         | |- context [if ?c then _ else _] => destruct c
         end;
    (eexists; split; [reflexivity | split; [reflexivity | split;
       [reflexivity | intros B; destruct B; cbn;
                      rewrite ?map_app, ?app_nil_r; cbn;
                      rewrite ?pronoun_info_i, ?conjunction_info_i;
                      reflexivity]]]).
Qed.

(** The loop, started from any state: labels follow the tokens, and each
    bucket grows by the indices of the tokens labelled with its name. *)
Lemma dispatch_fold (d : Doc) (l : list Token) :
  forall st,
    let st' := fold_left (dispatch d) l st in
    map l_i (pos_labels st') = (map l_i (pos_labels st) ++ map i l)%list
    /\ map gold (pos_labels st')
       = (map gold (pos_labels st) ++ map gold_of l)%list
    /\ forall B,
        indices st' B
        = (indices st B
           ++ map i (filter (fun t => gold_of t == gold_name B) l))%list.
Proof.
  induction l as [|t l IH]; intros st; cbn.
  - rewrite !app_nil_r. repeat split; intros; now rewrite app_nil_r.
  - destruct (dispatch_step d st t) as (lab & Hl & Hi & Hg & HB).
    destruct (IH (dispatch d st t)) as (IH1 & IH2 & IH3).
    repeat split.
    + rewrite IH1, Hl, map_app, <- app_assoc. cbn. now rewrite Hi.
    + rewrite IH2, Hl, map_app, <- app_assoc. cbn. now rewrite Hg.
    + intros B. rewrite IH3, HB, <- app_assoc.
      destruct (gold_of t == gold_name B); reflexivity.
Qed.

(** What the loop of [analyze] leaves, in terms of the tokens alone. *)
Lemma pos_buckets_spec (d : Doc) :
  map l_i (pos_labels (pos_buckets d)) = map i (toks d)
  /\ map gold (pos_labels (pos_buckets d)) = map gold_of (toks d)
  /\ forall B,
      indices (pos_buckets d) B
      = map i (filter (fun t => gold_of t == gold_name B) (toks d)).
Proof.
  unfold pos_buckets.
  destruct (dispatch_fold d (toks d) no_buckets) as (H1 & H2 & H3).
  repeat split; [exact H1 | exact H2 |].
  intros B. rewrite (H3 B). now destruct B.
Qed.

Lemma labelled_by_tokens (g : string) (L : list PosLabel) :
  forall T : list Token,
    map l_i L = map i T -> map gold L = map gold_of T ->
    map l_i (filter (fun l => gold l == g) L)
    = map i (filter (fun t => gold_of t == g) T).
Proof.
  induction L as [|lab L IH]; intros [|t T] Hi Hg; try discriminate.
  - reflexivity.
  - cbn in *. injection Hi as Hi1 Hi2. injection Hg as Hg1 Hg2.
    rewrite Hg1. destruct (gold_of t == g); cbn;
      rewrite (IH T Hi2 Hg2); congruence.
Qed.

Lemma labelled_spec (d : Doc) (g : string) :
  labelled (pos_buckets d) g
  = map i (filter (fun t => gold_of t == g) (toks d)).
Proof.
  destruct (pos_buckets_spec d) as (H1 & H2 & _).
  now apply labelled_by_tokens.
Qed.

(** Each token is counted once over the ten classes. *)
Lemma classes_count (T : list Token) (k : nat) :
  count_occ Nat.eq_dec
    (flat_map (fun B => map i (filter (fun t => gold_of t == gold_name B) T))
              all_buckets
     ++ map i (filter (fun t => gold_of t == "other") T))%list k
  = count_occ Nat.eq_dec (map i T) k.
Proof.
  cbn [flat_map all_buckets]. rewrite !count_occ_app.
  induction T as [|t T IH]; [reflexivity|].
  cbn [filter map]. cbn [gold_name] in *.
  destruct (gold_of_cases t) as [H | [B H]]; [| destruct B];
    rewrite H; cbn [gold_name String.eqb Ascii.eqb Bool.eqb andb map];
    cbn [count_occ] in *; destruct (Nat.eq_dec (i t) k); lia.
Qed.

Lemma placements_count (d : Doc) (k : nat) :
  count_occ Nat.eq_dec (placements (pos_buckets d)) k
  = count_occ Nat.eq_dec (map i (toks d)) k.
Proof.
  unfold placements, other_indices.
  fold (labelled (pos_buckets d) "other"). rewrite labelled_spec.
  destruct (pos_buckets_spec d) as (_ & _ & HB).
  rewrite <- classes_count. f_equal. f_equal.
  apply flat_map_ext. exact HB.
Qed.

Lemma indices_In (d : Doc) (B : Bucket) (k : nat) :
  In k (indices (pos_buckets d) B)
  <-> exists t, In t (toks d) /\ i t = k /\ gold_of t = gold_name B.
Proof.
  destruct (pos_buckets_spec d) as (_ & _ & HB). rewrite HB, in_map_iff.
  split.
  - intros (t & H1 & H2).
    apply filter_In in H2 as [H2 H3]. apply String.eqb_eq in H3. eauto.
  - intros (t & H1 & H2 & H3). exists t. split; [exact H2|].
    apply filter_In. split; [exact H1|]. now apply String.eqb_eq.
Qed.

Lemma other_In (d : Doc) (k : nat) :
  In k (other_indices (pos_buckets d))
  <-> exists t, In t (toks d) /\ i t = k /\ gold_of t = "other".
Proof.
  unfold other_indices. fold (labelled (pos_buckets d) "other").
  rewrite labelled_spec, in_map_iff.
  split.
  - intros (t & H1 & H2).
    apply filter_In in H2 as [H2 H3]. apply String.eqb_eq in H3. eauto.
  - intros (t & H1 & H2 & H3). exists t. split; [exact H2|].
    apply filter_In. split; [exact H1|]. now apply String.eqb_eq.
Qed.

Lemma indexed_nth (d : Doc) (k : nat) (t : Token) :
  doc_indexed d -> nth_error (toks d) k = Some t -> i t = k.
Proof.
  intros Hd Hk. unfold doc_indexed in Hd.
  pose proof (map_nth_error i _ _ Hk) as H. rewrite Hd in H.
  assert (k < length (toks d)) as Hlt
      by (apply nth_error_Some; congruence).
  rewrite (nth_error_nth' _ 0) in H by now rewrite length_seq.
  rewrite seq_nth in H by exact Hlt. cbn in H. congruence.
Qed.

Lemma indexed_In (d : Doc) (t : Token) :
  doc_indexed d -> In t (toks d) -> nth_error (toks d) (i t) = Some t.
Proof.
  intros Hd Ht. destruct (In_nth_error _ _ Ht) as [k Hk].
  now rewrite (indexed_nth d k t Hd Hk).
Qed.

Lemma gold_name_inj (B1 B2 : Bucket) :
  gold_name B1 = gold_name B2 -> B1 = B2.
Proof. destruct B1, B2; cbn; intros H; try reflexivity; discriminate. Qed.

Lemma gold_name_not_other (B : Bucket) : gold_name B <> "other".
Proof. destruct B; discriminate. Qed.

Lemma analyze_inv (nlp : string -> Doc) (text_in : string)
      (out : AnalyzeOut) :
  analyze nlp text_in = Some out ->
  out_text out = text_in
  /\ tokens out = map token_view (toks (nlp text_in))
  /\ buckets out = pos_buckets (nlp text_in)
  /\ clauses out = clauses_of (nlp text_in)
  /\ noun_phrases_of (nlp text_in) = Some (noun_phrases out).
Proof.
  unfold analyze. destruct (noun_phrases_of (nlp text_in)); [|discriminate].
  intros [= <-]. cbn. repeat split.
Qed.

(** The dispatching loop partitions the indices of an indexed document. *)
Lemma dispatcher_partitions (d : Doc) :
  doc_indexed d -> partitioned (pos_buckets d) (length (toks d)).
Proof.
  intros Hd. unfold partitioned.
  assert (Permutation (placements (pos_buckets d))
                      (seq 0 (length (toks d)))) as HP.
  { apply (Permutation_count_occ Nat.eq_dec). intros k.
    rewrite placements_count. now rewrite Hd. }
  split; [exact HP|]. split.
  { apply (Permutation_NoDup (Permutation_sym HP)), seq_NoDup. }
  split; [|split].
  - intros k Hk.
    assert (In k (placements (pos_buckets d))) as Hin.
    { apply (Permutation_in _ (Permutation_sym HP)), in_seq. lia. }
    apply in_app_or in Hin as [Hin | Hin]; [left | now right].
    apply in_flat_map in Hin as (B & _ & HB). now exists B.
  - intros k B1 B2 H1 H2.
    apply indices_In in H1 as (t1 & Ht1 & Hi1 & Hg1).
    apply indices_In in H2 as (t2 & Ht2 & Hi2 & Hg2).
    pose proof (indexed_In d t1 Hd Ht1) as E1.
    pose proof (indexed_In d t2 Hd Ht2) as E2.
    rewrite Hi1 in E1. rewrite Hi2 in E2.
    assert (t1 = t2) by congruence. subst t2.
    apply gold_name_inj. congruence.
  - intros k B H1 H2.
    apply indices_In in H1 as (t1 & Ht1 & Hi1 & Hg1).
    apply other_In in H2 as (t2 & Ht2 & Hi2 & Hg2).
    pose proof (indexed_In d t1 Hd Ht1) as E1.
    pose proof (indexed_In d t2 Hd Ht2) as E2.
    rewrite Hi1 in E1. rewrite Hi2 in E2.
    assert (t1 = t2) by congruence. subst t2.
    apply (gold_name_not_other B). congruence.
Qed.

(** C1. For every parsed input, the response lists the input tokens,
    and the dispatching loop of [analyze] places the index of every input
    token in exactly one of the nine buckets or labels it ["other"] in
    [pos_labels]: with [n] the number of input tokens, the placements are
    a rearrangement of [0 .. n-1] without repetition, every index below
    [n] is placed, no index is in two buckets, none is both in a bucket
    and labelled ["other"]; and each input token is placed where the
    tests of the dispatcher send it. *)
Theorem analyze_partition (nlp : string -> Doc) (text_in : string)
        (out : AnalyzeOut) :
  doc_indexed (nlp text_in) ->
  analyze nlp text_in = Some out ->
  tokens out = map token_view (toks (nlp text_in))
  /\ partitioned (buckets out) (length (toks (nlp text_in)))
  /\ placed_by_tests (toks (nlp text_in)) (buckets out).
Proof.
  intros Hd Ha. apply analyze_inv in Ha as (_ & Htok & Hb & _).
  rewrite Hb. split; [exact Htok|]. clear out Htok Hb.
  set (d := nlp text_in) in *.
  split; [now apply dispatcher_partitions|].
  intros t Ht.
  assert (forall u, In u (toks d) -> i u = i t -> u = t) as Huniq.
  { intros u Hu Hut. pose proof (indexed_In d u Hd Hu) as E1.
    pose proof (indexed_In d t Hd Ht) as E2.
    rewrite Hut in E1. congruence. }
  split.
  - intros B. rewrite indices_In. split.
    + intros (u & Hu & Hut & Hg). now rewrite <- (Huniq u Hu Hut).
    + intros Hg. now exists t.
  - rewrite other_In. split.
    + intros (u & Hu & Hut & Hg). now rewrite <- (Huniq u Hu Hut).
    + intros Hg. now exists t.
Qed.

Lemma analyze_partition_witness :
  doc_indexed (waiting_nlp waiting_text)
  /\ exists out,
      analyze waiting_nlp waiting_text = Some out
      /\ tokens out = map token_view (toks (waiting_nlp waiting_text))
      /\ partitioned (buckets out)
                     (length (toks (waiting_nlp waiting_text)))
      /\ placed_by_tests (toks (waiting_nlp waiting_text)) (buckets out).
Proof.
  split; [reflexivity|].
  eexists. split; [reflexivity|].
  apply (analyze_partition waiting_nlp waiting_text); reflexivity.
Defined.

(** C2. For every parsed input, [pos_labels] has one entry per input
    token, in the order of the tokens; the entry of the token at position
    [k] carries the index [k] and the label the dispatcher gives that
    token, and its [gold] is the name of the bucket the index was placed
    into (["other"] when it is in none). *)
Theorem analyze_pos_labels (nlp : string -> Doc) (text_in : string)
        (out : AnalyzeOut) :
  doc_indexed (nlp text_in) ->
  analyze nlp text_in = Some out ->
  labels_parallel (toks (nlp text_in)) out.
Proof.
  intros Hd Ha. apply analyze_inv in Ha as (_ & Htok & Hb & _).
  unfold labels_parallel. cbn zeta. rewrite Hb.
  split; [exact Htok|]. clear out Htok Hb.
  set (d := nlp text_in) in *.
  destruct (pos_buckets_spec d) as (H1 & H2 & _).
  assert (length (pos_labels (pos_buckets d)) = length (toks d)) as Hlen.
  { apply (f_equal (@length nat)) in H1. now rewrite !length_map in H1. }
  split; [exact Hlen|]. split; [exact H1|].
  intros k t Ht.
  assert (exists lab, nth_error (pos_labels (pos_buckets d)) k = Some lab)
    as [lab Hk].
  { destruct (nth_error (pos_labels (pos_buckets d)) k) eqn:E; [eauto|].
    apply nth_error_None in E.
    assert (k < length (toks d)) by (apply nth_error_Some; congruence).
    lia. }
  exists lab. split; [exact Hk|].
  assert (l_i lab = i t) as Hi.
  { pose proof (map_nth_error l_i _ _ Hk) as A.
    pose proof (map_nth_error i _ _ Ht) as B. congruence. }
  assert (gold lab = gold_of t) as Hg.
  { pose proof (map_nth_error gold _ _ Hk) as A.
    pose proof (map_nth_error gold_of _ _ Ht) as B. congruence. }
  pose proof (indexed_nth d k t Hd Ht) as Hik.
  assert (forall u, In u (toks d) -> i u = k -> u = t) as Huniq.
  { intros u Hu Huk. pose proof (indexed_In d u Hd Hu) as E.
    rewrite Huk in E. congruence. }
  split; [congruence|]. split; [exact Hg|]. split.
  - intros B. rewrite Hg, indices_In. split.
    + intros (u & Hu & Huk & HuB). now rewrite <- (Huniq u Hu Huk).
    + intros HB. exists t. repeat split; try assumption.
      eapply nth_error_In; eassumption.
  - rewrite Hg. split.
    + intros Ho B HB. apply indices_In in HB as (u & Hu & Huk & HuB).
      rewrite (Huniq u Hu Huk) in HuB.
      apply (gold_name_not_other B). congruence.
    + intros Hno. destruct (gold_of_cases t) as [Ho | [B HB]]; [exact Ho|].
      exfalso. apply (Hno B), indices_In.
      exists t. repeat split; try assumption.
      eapply nth_error_In; eassumption.
Qed.

Lemma analyze_pos_labels_witness :
  doc_indexed (waiting_nlp waiting_text)
  /\ exists out,
      analyze waiting_nlp waiting_text = Some out
      /\ labels_parallel (toks (waiting_nlp waiting_text)) out.
Proof.
  split; [reflexivity|].
  eexists. split; [reflexivity|].
  apply (analyze_pos_labels waiting_nlp waiting_text); reflexivity.
Defined.

(* ===================================================================== *)
(** ** The records of the auxiliary, verb and conjunction buckets         *)
(* ===================================================================== *)

Ltac split_ifs :=
  repeat match goal with
         | |- context [if ?c then _ else _] =>
             lazymatch c with
             | context [if _ then _ else _] => fail
             | _ => destruct c eqn:?
             end
         end.

Lemma str_in_In (s : string) (l : list string) :
  str_in s l = true <-> In s l.
Proof.
  unfold str_in. rewrite existsb_exists. split.
  - intros (x & Hx & E). apply String.eqb_eq in E. now subst.
  - intros H. exists s. split; [exact H | apply String.eqb_refl].
Qed.

Lemma record_step (d : Doc) (st : Buckets) (t : Token) :
  auxiliaries (dispatch d st t)
  = (auxiliaries st
     ++ if gold_of t == "auxiliary" then [aux_record d t] else [])%list
  /\ verbs (dispatch d st t)
     = (verbs st ++ if gold_of t == "verb" then [verb_record d t] else [])%list
  /\ conjunctions (dispatch d st t)
     = (conjunctions st
        ++ if gold_of t == "conjunction" then [conjunction_info t]
           else [])%list.
Proof.
  unfold dispatch, gold_of.
  split_ifs; cbn in *; try discriminate; rewrite ?app_nil_r; repeat split.
Qed.

Lemma record_fold (d : Doc) (l : list Token) :
  forall st,
    let st' := fold_left (dispatch d) l st in
    auxiliaries st'
    = (auxiliaries st
       ++ map (aux_record d)
              (filter (fun t => gold_of t == "auxiliary") l))%list
    /\ verbs st'
       = (verbs st
          ++ map (verb_record d)
                 (filter (fun t => gold_of t == "verb") l))%list
    /\ conjunctions st'
       = (conjunctions st
          ++ map conjunction_info
                 (filter (fun t => gold_of t == "conjunction") l))%list.
Proof.
  induction l as [|t l IH]; intros st; cbn.
  - now rewrite !app_nil_r.
  - destruct (IH (dispatch d st t)) as (IA & IV & IC).
    destruct (record_step d st t) as (SA & SV & SC).
    rewrite IA, IV, IC, SA, SV, SC, <- !app_assoc.
    repeat split.
    + now destruct (gold_of t == "auxiliary").
    + now destruct (gold_of t == "verb").
    + now destruct (gold_of t == "conjunction").
Qed.

Lemma auxiliaries_spec (d : Doc) :
  auxiliaries (pos_buckets d)
  = map (aux_record d) (filter (fun t => gold_of t == "auxiliary") (toks d)).
Proof. apply (record_fold d (toks d) no_buckets). Qed.

Lemma verbs_spec (d : Doc) :
  verbs (pos_buckets d)
  = map (verb_record d) (filter (fun t => gold_of t == "verb") (toks d)).
Proof. apply (record_fold d (toks d) no_buckets). Qed.

Lemma conjunctions_spec (d : Doc) :
  conjunctions (pos_buckets d)
  = map conjunction_info
        (filter (fun t => gold_of t == "conjunction") (toks d)).
Proof. apply (record_fold d (toks d) no_buckets). Qed.

Lemma gold_of_auxiliary (t : Token) :
  gold_of t = "auxiliary" <-> is_aux t = true.
Proof.
  unfold gold_of. destruct (is_aux t); [tauto|].
  split; [|discriminate]. split_ifs; discriminate.
Qed.

Lemma gold_of_verb (t : Token) :
  gold_of t = "verb" <-> main_verb t.
Proof.
  unfold gold_of, main_verb. destruct (is_aux t).
  - split; [discriminate | intros [? _]; discriminate].
  - destruct (pos_ t == "VERB") eqn:E.
    + apply String.eqb_eq in E. tauto.
    + apply String.eqb_neq in E. split; [|tauto].
      split_ifs; discriminate.
Qed.

Lemma children_In (d : Doc) (t c : Token) :
  In c (children d t) <-> is_child d t c.
Proof.
  unfold children, is_child. rewrite filter_In, andb_true_iff,
    negb_true_iff, Nat.eqb_eq, Nat.eqb_neq. tauto.
Qed.

Lemma existsb_children (d : Doc) (t : Token) (deps : list string) :
  existsb (fun c => str_in (dep_ c) deps) (children d t) = true
  <-> has_child_via d t deps.
Proof.
  rewrite existsb_exists. unfold has_child_via.
  split; intros (c & Hc & Hd); exists c.
  - split; [now apply children_In | now apply str_in_In].
  - split; [now apply children_In | now apply str_in_In].
Qed.

(** C3. A token that passes the auxiliary test and has coarse tag [VERB]
    has its record in [auxiliaries], and no record of [verbs] carries its
    index. *)
Theorem aux_before_verb (nlp : string -> Doc) (text_in : string)
        (out : AnalyzeOut) (t : Token) :
  doc_indexed (nlp text_in) ->
  analyze nlp text_in = Some out ->
  In t (toks (nlp text_in)) ->
  is_aux t = true ->
  pos_ t = "VERB" ->
  In (aux_record (nlp text_in) t) (auxiliaries (buckets out))
  /\ In (i t) (indices (buckets out) Auxiliaries)
  /\ ~ In (i t) (indices (buckets out) Verbs)
  /\ forall r, In r (verbs (buckets out)) -> v_i r <> i t.
Proof.
  intros Hd Ha Ht Haux Hpos.
  apply analyze_inv in Ha as (_ & _ & Hb & _). rewrite Hb. clear out Hb.
  set (d := nlp text_in) in *.
  assert (gold_of t = "auxiliary") as Hg by now apply gold_of_auxiliary.
  assert (In (i t) (indices (pos_buckets d) Auxiliaries)) as HA.
  { apply indices_In. now exists t. }
  assert (~ In (i t) (indices (pos_buckets d) Verbs)) as HV.
  { intros HV.
    destruct (dispatcher_partitions d Hd) as (_ & _ & _ & Hone & _).
    discriminate (Hone _ _ _ HA HV). }
  repeat split; try assumption.
  - rewrite auxiliaries_spec. apply in_map, filter_In.
    split; [exact Ht | now apply String.eqb_eq].
  - intros r Hr E. apply HV. cbn. rewrite <- E. now apply in_map.
Qed.

Lemma aux_before_verb_witness :
  doc_indexed (has_nlp "She has a car.")
  /\ exists out t,
      analyze has_nlp "She has a car." = Some out
      /\ In t (toks (has_nlp "She has a car."))
      /\ is_aux t = true
      /\ pos_ t = "VERB"
      /\ In (aux_record (has_nlp "She has a car.") t)
            (auxiliaries (buckets out))
      /\ In (i t) (indices (buckets out) Auxiliaries)
      /\ ~ In (i t) (indices (buckets out) Verbs)
      /\ forall r, In r (verbs (buckets out)) -> v_i r <> i t.
Proof.
  split; [reflexivity|].
  eexists. exists (tok 1 "has" "have" "VERB" "VBZ" "ROOT" 1).
  split; [reflexivity|].
  split; [cbn; tauto|].
  split; [reflexivity|].
  split; [reflexivity|].
  apply (aux_before_verb has_nlp "She has a car.");
    [reflexivity | reflexivity | cbn; tauto | reflexivity | reflexivity].
Defined.

(* ===================================================================== *)
(** ** Transitivity of main verbs                                         *)
(* ===================================================================== *)

Lemma has_child_via_app (d : Doc) (t : Token) (l1 l2 : list string) :
  has_child_via d t (l1 ++ l2)%list
  <-> has_child_via d t l1 \/ has_child_via d t l2.
Proof.
  unfold has_child_via. split.
  - intros (c & Hc & Hin). apply in_app_or in Hin as [H | H]; eauto.
  - intros [(c & Hc & H) | (c & Hc & H)]; exists c;
      (split; [exact Hc | apply in_or_app; tauto]).
Qed.

Lemma has_object_spec (d : Doc) (t : Token) :
  has_object d t = true <-> has_child_via d t OBJECT_DEPS.
Proof.
  change OBJECT_DEPS
    with (["dobj"; "obj"; "attr"; "ccomp"; "xcomp"; "oprd"]
          ++ ["nsubjpass"])%list.
  rewrite has_child_via_app, <- !existsb_children. unfold has_object.
  destruct (existsb _ (children d t)); [tauto|].
  destruct (existsb _ (children d t)); [tauto|].
  split; [discriminate | intros [H | H]; discriminate].
Qed.

Lemma verb_transitivity (d : Doc) (t : Token) :
  v_transitivity (verb_record d t)
  = if has_object d t then "transitive" else "intransitive".
Proof. reflexivity. Qed.

(** The claim of C4 fails on "She became a doctor.": the verb's only
    non-subject child is an attribute, none of the listed relations is
    present, and the record says ["transitive"]. *)
Lemma transitivity_listed_counterexample :
  exists out r t,
    analyze became_nlp "She became a doctor." = Some out
    /\ In t (toks became_doc) /\ main_verb t
    /\ In r (verbs (buckets out)) /\ v_i r = i t
    /\ v_transitivity r = "transitive"
    /\ ~ has_child_via became_doc t LISTED_OBJECT_DEPS.
Proof.
  eexists. exists (verb_record became_doc (nth 1 became_toks blank)).
  exists (nth 1 became_toks blank).
  split; [reflexivity|].
  split; [cbn; tauto|].
  split; [split; reflexivity|].
  split; [cbn; tauto|].
  split; [reflexivity|].
  split; [reflexivity|].
  rewrite <- existsb_children. cbv. discriminate.
Qed.

(** C4 (amended). Every main-verb token has its record in [verbs], every
    record of [verbs] is the record of a main-verb token, and the record's
    transitivity is ["transitive"] exactly when the verb has a child
    attached by a direct-object, attribute, clausal-complement,
    open-complement, object-predicate or passive-subject relation, and
    ["intransitive"] exactly when it has none. *)
Theorem transitivity_object_relations (nlp : string -> Doc)
        (text_in : string) (out : AnalyzeOut) :
  analyze nlp text_in = Some out ->
  (forall t, In t (toks (nlp text_in)) -> main_verb t ->
     In (verb_record (nlp text_in) t) (verbs (buckets out)))
  /\ (forall r, In r (verbs (buckets out)) ->
        exists t, In t (toks (nlp text_in)) /\ main_verb t
                  /\ r = verb_record (nlp text_in) t)
  /\ (forall t,
        (v_transitivity (verb_record (nlp text_in) t) = "transitive"
         <-> has_child_via (nlp text_in) t OBJECT_DEPS)
        /\ (v_transitivity (verb_record (nlp text_in) t) = "intransitive"
            <-> ~ has_child_via (nlp text_in) t OBJECT_DEPS)).
Proof.
  intros Ha. apply analyze_inv in Ha as (_ & _ & Hb & _).
  rewrite Hb, verbs_spec. clear out Hb. set (d := nlp text_in).
  split; [|split].
  - intros t Ht Hv. apply in_map, filter_In. split; [exact Ht|].
    apply String.eqb_eq. now apply gold_of_verb.
  - intros r Hr. apply in_map_iff in Hr as (t & <- & Ht).
    apply filter_In in Ht as [Ht Hg]. apply String.eqb_eq in Hg.
    exists t. repeat split; try assumption; now apply gold_of_verb.
  - intros t. rewrite verb_transitivity, <- has_object_spec.
    destruct (has_object d t); split; split;
      try discriminate; try reflexivity; try tauto.
Qed.

Lemma transitivity_object_relations_witness :
  exists out,
    analyze became_nlp "She became a doctor." = Some out
    /\ (forall t, In t (toks became_doc) -> main_verb t ->
          In (verb_record became_doc t) (verbs (buckets out)))
    /\ (forall r, In r (verbs (buckets out)) ->
          exists t, In t (toks became_doc) /\ main_verb t
                    /\ r = verb_record became_doc t)
    /\ (forall t,
          (v_transitivity (verb_record became_doc t) = "transitive"
           <-> has_child_via became_doc t OBJECT_DEPS)
          /\ (v_transitivity (verb_record became_doc t) = "intransitive"
              <-> ~ has_child_via became_doc t OBJECT_DEPS)).
Proof.
  eexists. split; [reflexivity|].
  apply (transitivity_object_relations became_nlp "She became a doctor.").
  reflexivity.
Defined.

(* ===================================================================== *)
(** ** Conjunction sub-types                                              *)
(* ===================================================================== *)

(** C5. On "It rained, thus we stayed." the token "thus" is placed in
    [conjunctions] with sub-type ["other"], although its lemma is in the
    conjunctive-adverb set of [adverb_info], which flags the same token
    as a conjunctive adverb: the set of [conjunction_info] lacks "thus",
    "hence" and "meanwhile". *)
Theorem conjunction_thus_is_other :
  exists out r t,
    analyze thus_nlp "It rained, thus we stayed." = Some out
    /\ In t (toks thus_doc)
    /\ lemma_ t = "thus"
    /\ In (lemma_ t) CONJUNCTIVE_ADVERBS
    /\ adv_conjunctive (adverb_info thus_doc t) = true
    /\ In r (conjunctions (buckets out))
    /\ r = conjunction_info t
    /\ c_type r = "other".
Proof.
  eexists. eexists. exists (tok 3 "thus" "thus" "CCONJ" "CC" "cc" 1).
  split; [reflexivity|].
  split; [cbn; tauto|].
  split; [reflexivity|].
  split; [cbn; tauto|].
  split; [reflexivity|].
  split; [|split; [reflexivity | reflexivity]].
  cbn. tauto.
Qed.

(** The three words are the whole difference between the two sets. *)
Lemma conjunction_set_difference (d : Doc) (t : Token) :
  In (lower (lemma_ t)) ["thus"; "hence"; "meanwhile"] ->
  adv_conjunctive (adverb_info d t) = true
  /\ c_type (conjunction_info t) = "other".
Proof.
  intros [H | [H | [H | []]]]; unfold adverb_info, conjunction_info;
    cbn [adv_conjunctive]; rewrite <- H; split; reflexivity.
Qed.

(* ===================================================================== *)
(** ** Roles of auxiliaries                                               *)
(* ===================================================================== *)

Lemma aux_role_first_match (a h : Token) :
  aux_role a h = role_by_priority a h.
Proof.
  unfold aux_role, role_by_priority, role_rules. cbn [first_match].
  destruct ((tag_ a == "MD") || str_in (lemma_ a) MODALS); [reflexivity|].
  destruct (lemma_ a == "have"); [reflexivity|].
  destruct (lemma_ a == "be"); cbn [andb];
    [destruct (tag_ h == "VBG"); [reflexivity|];
     destruct (tag_ h == "VBN"); reflexivity | reflexivity].
Qed.

(** C6. The role of an auxiliary is the result of the first rule that
    holds, in the order modal, perfect, progressive, passive, do-support,
    with ["other"] when none holds; every token that passes the auxiliary
    test has its record in [auxiliaries], and every record there carries
    the role of its token, the head being [t.head] (the token itself when
    the head object is false, which only a head with empty text is). *)
Theorem aux_role_by_priority (nlp : string -> Doc) (text_in : string)
        (out : AnalyzeOut) :
  analyze nlp text_in = Some out ->
  (forall a h, aux_role a h = role_by_priority a h)
  /\ (forall t, In t (toks (nlp text_in)) -> is_aux t = true ->
        In (aux_record (nlp text_in) t) (auxiliaries (buckets out)))
  /\ (forall r, In r (auxiliaries (buckets out)) ->
        exists t, In t (toks (nlp text_in)) /\ is_aux t = true
                  /\ a_i r = i t
                  /\ a_role r
                     = role_by_priority t (head_or_self (nlp text_in) t))
  /\ (forall t, text (head_of (nlp text_in) t) <> "" ->
        head_or_self (nlp text_in) t = head_of (nlp text_in) t).
Proof.
  intros Ha. apply analyze_inv in Ha as (_ & _ & Hb & _).
  rewrite Hb, auxiliaries_spec. clear out Hb. set (d := nlp text_in).
  split; [exact aux_role_first_match|]. split; [|split].
  - intros t Ht Haux. apply in_map, filter_In. split; [exact Ht|].
    apply String.eqb_eq. now apply gold_of_auxiliary.
  - intros r Hr. apply in_map_iff in Hr as (t & <- & Ht).
    apply filter_In in Ht as [Ht Hg]. apply String.eqb_eq in Hg.
    exists t. repeat split; try assumption.
    + now apply gold_of_auxiliary.
    + cbn. apply aux_role_first_match.
  - intros t Hne. unfold head_or_self, truthy.
    apply String.eqb_neq in Hne. now rewrite Hne.
Qed.

Lemma aux_role_by_priority_witness :
  exists out,
    analyze waiting_nlp waiting_text = Some out
    /\ (forall a h, aux_role a h = role_by_priority a h)
    /\ (forall t, In t (toks waiting_doc) -> is_aux t = true ->
          In (aux_record waiting_doc t) (auxiliaries (buckets out)))
    /\ (forall r, In r (auxiliaries (buckets out)) ->
          exists t, In t (toks waiting_doc) /\ is_aux t = true
                    /\ a_i r = i t
                    /\ a_role r
                       = role_by_priority t (head_or_self waiting_doc t))
    /\ (forall t, text (head_of waiting_doc t) <> "" ->
          head_or_self waiting_doc t = head_of waiting_doc t).
Proof.
  eexists. split; [reflexivity|].
  apply (aux_role_by_priority waiting_nlp waiting_text). reflexivity.
Defined.

(** The scenario "They might have been waiting for the bus.": labels,
    auxiliary chain of "waiting", roles. *)
Example waiting_labels :
  map gold (pos_labels (pos_buckets waiting_doc))
  = ["pronoun"; "auxiliary"; "auxiliary"; "auxiliary"; "verb";
     "preposition"; "other"; "noun"; "other"].
Proof. reflexivity. Qed.

Example waiting_aux_chain :
  map v_aux_chain (verbs (pos_buckets waiting_doc))
  = [["might"; "have"; "been"]].
Proof. reflexivity. Qed.

Example waiting_roles :
  map a_role (auxiliaries (pos_buckets waiting_doc))
  = ["modal"; "perfect"; "progressive"].
Proof. reflexivity. Qed.

(* ===================================================================== *)
(** ** Clauses                                                            *)
(* ===================================================================== *)

Lemma strs_eqb_eq (a b : list string) : strs_eqb a b = true <-> a = b.
Proof.
  revert b. induction a as [|x a IH]; intros [|y b]; cbn;
    try (split; [discriminate | discriminate]); [tauto|].
  rewrite andb_true_iff, String.eqb_eq, IH.
  split; [intros [-> ->]; reflexivity | intros [= -> ->]; tauto].
Qed.

Lemma clauses_In (d : Doc) (r : ClauseRec) :
  In r (clauses_of d)
  <-> exists t, In t (toks d)
                /\ ((is_root_predicate t = true
                     /\ r = independent_clause d t)
                    \/ (is_dependent_clause t = true
                        /\ r = dependent_clause d t)).
Proof.
  unfold clauses_of. rewrite in_flat_map.
  split; intros (t & Ht & H); exists t; (split; [exact Ht|]).
  - unfold clause_records in H. apply in_app_or in H as [H | H].
    + destruct (is_root_predicate t); [|destruct H].
      destruct H as [<- | []]. now left.
    + destruct (is_dependent_clause t); [|destruct H].
      destruct H as [<- | []]. now right.
  - unfold clause_records. apply in_or_app.
    destruct H as [[-> ->] | [-> ->]]; [left | right]; now left.
Qed.

(** C7. A token whose relation is clausal complement, open complement,
    adverbial clause or relative clause gets a clause record anchored at
    it: the type is ["adverbial"] for an adverbial clause, ["relative"]
    for a relative clause and ["complement"] otherwise; [finite] is false
    exactly when the [VerbForm] feature is [["Inf"]] (so it is true when
    the feature is absent); [has_marker] is true exactly when a direct
    child carries a marker, complementizer or relative-clause relation. *)
Theorem dependent_clause_record (nlp : string -> Doc) (text_in : string)
        (out : AnalyzeOut) (t : Token) :
  analyze nlp text_in = Some out ->
  In t (toks (nlp text_in)) ->
  In (dep_ t) ["ccomp"; "xcomp"; "advcl"; "relcl"] ->
  exists r,
    In r (clauses out)
    /\ cl_i r = i t
    /\ (dep_ t = "advcl" -> cl_type r = "adverbial")
    /\ (dep_ t = "relcl" -> cl_type r = "relative")
    /\ (dep_ t <> "advcl" -> dep_ t <> "relcl" -> cl_type r = "complement")
    /\ (cl_finite r = false <-> morph_get (morph t) "VerbForm" = ["Inf"])
    /\ (cl_finite r = true <-> morph_get (morph t) "VerbForm" <> ["Inf"])
    /\ (morph_get (morph t) "VerbForm" = [] -> cl_finite r = true)
    /\ (cl_has_marker r = true
        <-> has_child_via (nlp text_in) t ["mark"; "complm"; "relcl"]).
Proof.
  intros Ha Ht Hdep. apply analyze_inv in Ha as (_ & _ & _ & Hc & _).
  rewrite Hc. clear out Hc. set (d := nlp text_in) in *.
  exists (dependent_clause d t).
  assert (cl_finite (dependent_clause d t) = false
          <-> morph_get (morph t) "VerbForm" = ["Inf"]) as Hfin.
  { cbn. rewrite negb_false_iff. apply strs_eqb_eq. }
  split; [|split; [reflexivity|]].
  { apply clauses_In. exists t. split; [exact Ht|]. right.
    split; [now apply str_in_In | reflexivity]. }
  split; [intros E; cbn; now rewrite E|].
  split; [intros E; cbn; now rewrite E|].
  split.
  { intros N1 N2. cbn. apply String.eqb_neq in N1, N2.
    now rewrite N1, N2. }
  split; [exact Hfin|]. split; [|split].
  - rewrite <- Hfin. destruct (cl_finite (dependent_clause d t));
      split; congruence.
  - intros E. cbn. now rewrite E.
  - cbn [cl_has_marker dependent_clause]. apply existsb_children.
Qed.

Lemma dependent_clause_record_witness :
  exists out t,
    analyze want_nlp "I want to go." = Some out
    /\ In t (toks want_doc)
    /\ In (dep_ t) ["ccomp"; "xcomp"; "advcl"; "relcl"]
    /\ exists r,
        In r (clauses out)
        /\ cl_i r = i t
        /\ (dep_ t = "advcl" -> cl_type r = "adverbial")
        /\ (dep_ t = "relcl" -> cl_type r = "relative")
        /\ (dep_ t <> "advcl" -> dep_ t <> "relcl" ->
            cl_type r = "complement")
        /\ (cl_finite r = false
            <-> morph_get (morph t) "VerbForm" = ["Inf"])
        /\ (cl_finite r = true
            <-> morph_get (morph t) "VerbForm" <> ["Inf"])
        /\ (morph_get (morph t) "VerbForm" = [] -> cl_finite r = true)
        /\ (cl_has_marker r = true
            <-> has_child_via want_doc t ["mark"; "complm"; "relcl"]).
Proof.
  eexists. exists (nth 3 want_toks blank).
  split; [reflexivity|].
  split; [cbn; tauto|].
  split; [cbn; tauto|].
  apply (dependent_clause_record want_nlp "I want to go.");
    [reflexivity | cbn; tauto | cbn; tauto].
Defined.

(** The clause records of "I want to go.": the root clause and the
    infinitive complement. *)
Example want_clauses :
  map (fun r => (cl_i r, cl_text r, cl_type r, cl_finite r, cl_has_marker r))
      (clauses_of want_doc)
  = [(1, "I want to go .", "independent", true, false);
     (3, "to go", "complement", false, false)].
Proof. reflexivity. Qed.

Lemma root_not_dependent (t : Token) :
  is_root_predicate t = true -> is_dependent_clause t = false.
Proof.
  unfold is_root_predicate, is_dependent_clause.
  intros H. apply andb_true_iff in H as [H _].
  apply String.eqb_eq in H. now rewrite H.
Qed.

Lemma clause_records_anchor (d : Doc) (t : Token) (k : nat) :
  length (filter (fun r => cl_i r =? k) (clause_records d t))
  <= if Nat.eq_dec (i t) k then 1 else 0.
Proof.
  unfold clause_records.
  destruct (is_root_predicate t) eqn:R.
  - rewrite (root_not_dependent t R). cbn.
    destruct (Nat.eq_dec (i t) k) as [E | E].
    + destruct (i t =? k); cbn; lia.
    + apply Nat.eqb_neq in E. now rewrite E.
  - destruct (is_dependent_clause t); cbn; [|destruct (Nat.eq_dec _ _); lia].
    destruct (Nat.eq_dec (i t) k) as [E | E].
    + destruct (i t =? k); cbn; lia.
    + apply Nat.eqb_neq in E. now rewrite E.
Qed.

Lemma clauses_anchor_count (d : Doc) (T : list Token) (k : nat) :
  length (filter (fun r => cl_i r =? k) (flat_map (clause_records d) T))
  <= count_occ Nat.eq_dec (map i T) k.
Proof.
  induction T as [|t T IH]; [cbn; lia|].
  cbn [flat_map map count_occ]. rewrite filter_app, length_app.
  pose proof (clause_records_anchor d t k) as H.
  destruct (Nat.eq_dec (i t) k); lia.
Qed.

(** C10. The two tests of the clause loop exclude each other, being tests
    of the one relation label of the token, and so at most one clause
    record is anchored at any token index. *)
Theorem one_clause_per_token (nlp : string -> Doc) (text_in : string)
        (out : AnalyzeOut) :
  doc_indexed (nlp text_in) ->
  analyze nlp text_in = Some out ->
  (forall t, ~ (is_root_predicate t = true
                /\ is_dependent_clause t = true))
  /\ (forall t, length (clause_records (nlp text_in) t) <= 1)
  /\ (forall k,
        length (filter (fun r => cl_i r =? k) (clauses out)) <= 1).
Proof.
  intros Hd Ha. apply analyze_inv in Ha as (_ & _ & _ & Hc & _).
  rewrite Hc. clear out Hc. set (d := nlp text_in) in *.
  split; [|split].
  - intros t [R D]. rewrite (root_not_dependent t R) in D. discriminate.
  - intros t. unfold clause_records.
    destruct (is_root_predicate t) eqn:R.
    + rewrite (root_not_dependent t R). cbn. lia.
    + destruct (is_dependent_clause t); cbn; lia.
  - intros k. unfold clauses_of.
    eapply Nat.le_trans; [apply clauses_anchor_count|].
    rewrite Hd. apply NoDup_count_occ, seq_NoDup.
Qed.

Lemma one_clause_per_token_witness :
  doc_indexed (want_nlp "I want to go.")
  /\ exists out,
      analyze want_nlp "I want to go." = Some out
      /\ (forall t, ~ (is_root_predicate t = true
                       /\ is_dependent_clause t = true))
      /\ (forall t, length (clause_records want_doc t) <= 1)
      /\ (forall k,
            length (filter (fun r => cl_i r =? k) (clauses out)) <= 1).
Proof.
  split; [reflexivity|].
  eexists. split; [reflexivity|].
  apply (one_clause_per_token want_nlp "I want to go."); reflexivity.
Defined.

(* ===================================================================== *)
(** ** Documents without dependency annotation                            *)
(* ===================================================================== *)

(** C8. When the parse has no dependency annotation, [analyze] does not
    read the noun chunks: it returns, whatever reading them would do, with
    an empty [noun_phrases] and with the text, the tokens, the buckets,
    the labels (one per token) and the clauses computed as usual. *)
Theorem analyze_without_dependencies (nlp : string -> Doc)
        (text_in : string) :
  has_annotation_DEP (nlp text_in) = false ->
  exists out,
    analyze nlp text_in = Some out
    /\ noun_phrases out = []
    /\ out_text out = text_in
    /\ tokens out = map token_view (toks (nlp text_in))
    /\ buckets out = pos_buckets (nlp text_in)
    /\ clauses out = clauses_of (nlp text_in)
    /\ length (pos_labels (buckets out)) = length (tokens out).
Proof.
  intros H. unfold analyze, noun_phrases_of. rewrite H.
  eexists. split; [reflexivity|]. cbn. repeat split.
  destruct (pos_buckets_spec (nlp text_in)) as (H1 & _).
  apply (f_equal (@length nat)) in H1. now rewrite !length_map in *.
Qed.

Lemma analyze_without_dependencies_witness :
  has_annotation_DEP (untagged_nlp "Dogs bark.") = false
  /\ noun_chunks (untagged_nlp "Dogs bark.") = None
  /\ exists out,
      analyze untagged_nlp "Dogs bark." = Some out
      /\ noun_phrases out = []
      /\ out_text out = "Dogs bark."
      /\ tokens out = map token_view (toks (untagged_nlp "Dogs bark."))
      /\ buckets out = pos_buckets (untagged_nlp "Dogs bark.")
      /\ clauses out = clauses_of (untagged_nlp "Dogs bark.")
      /\ length (pos_labels (buckets out)) = length (tokens out).
Proof.
  split; [reflexivity|]. split; [reflexivity|].
  apply (analyze_without_dependencies untagged_nlp "Dogs bark.").
  reflexivity.
Defined.

(** The guard matters: were the chunks read on that document, the call
    would fail. *)
Example unguarded_chunks_fail :
  analyze (fun _ => {| toks := untagged_toks; has_annotation_DEP := true;
                       noun_chunks := None |}) "Dogs bark." = None.
Proof. reflexivity. Qed.

(* ===================================================================== *)
(** ** The sentence provider                                              *)
(* ===================================================================== *)















(* ===================================================================== *)
(** ** Order of the records                                               *)
(* ===================================================================== *)

Lemma seq_increasing (n s : nat) : increasing (seq s n).
Proof.
  revert s. induction n as [|n IH]; intros s; cbn; constructor.
  - apply IH.
  - apply Forall_forall. intros x Hx. apply in_seq in Hx. lia.
Qed.

Lemma filter_increasing (f : Token -> bool) (l : list Token) :
  increasing (map i l) -> increasing (map i (filter f l)).
Proof.
  unfold increasing. induction l as [|t l IH]; cbn; intros H; [constructor|].
  apply StronglySorted_inv in H as [Hs Hall].
  destruct (f t); cbn; [constructor|]; auto.
  rewrite Forall_forall in *. intros x Hx. apply Hall.
  apply in_map_iff in Hx as (u & <- & Hu). apply in_map.
  now apply filter_In in Hu.
Qed.

Lemma indexed_increasing (d : Doc) :
  doc_indexed d -> increasing (map i (toks d)).
Proof. intros H. rewrite H. apply seq_increasing. Qed.

(** X3. Each bucket lists its records in the order of the tokens: the
    indices of a bucket increase strictly. *)
Theorem buckets_in_token_order (nlp : string -> Doc) (text_in : string)
        (out : AnalyzeOut) (B : Bucket) :
  doc_indexed (nlp text_in) ->
  analyze nlp text_in = Some out ->
  increasing (indices (buckets out) B).
Proof.
  intros Hd Ha. apply analyze_inv in Ha as (_ & _ & Hb & _). rewrite Hb.
  destruct (pos_buckets_spec (nlp text_in)) as (_ & _ & HB). rewrite HB.
  now apply filter_increasing, indexed_increasing.
Qed.

Lemma buckets_in_token_order_witness :
  doc_indexed (waiting_nlp waiting_text)
  /\ exists out,
      analyze waiting_nlp waiting_text = Some out
      /\ increasing (indices (buckets out) Auxiliaries).
Proof.
  split; [reflexivity|].
  eexists. split; [reflexivity|].
  apply (buckets_in_token_order waiting_nlp waiting_text); reflexivity.
Defined.

Lemma clause_anchors (d : Doc) (T : list Token) :
  map cl_i (flat_map (clause_records d) T)
  = map i (filter (fun t => is_root_predicate t || is_dependent_clause t) T).
Proof.
  induction T as [|t T IH]; [reflexivity|].
  cbn [flat_map filter]. rewrite map_app, IH. unfold clause_records.
  destruct (is_root_predicate t) eqn:R.
  - now rewrite (root_not_dependent t R).
  - now destruct (is_dependent_clause t).
Qed.

(** X12. The clause records come in the order of their anchor tokens, each
    anchor once; every record is of one of the four types, and an
    independent one is finite, without marker, and anchored at a token
    with relation [ROOT] and coarse tag [VERB] or [AUX]. *)
Theorem clauses_in_token_order (nlp : string -> Doc) (text_in : string)
        (out : AnalyzeOut) :
  doc_indexed (nlp text_in) ->
  analyze nlp text_in = Some out ->
  increasing (map cl_i (clauses out))
  /\ forall r, In r (clauses out) ->
       In (cl_type r) ["independent"; "adverbial"; "relative"; "complement"]
       /\ (cl_type r = "independent" ->
           cl_finite r = true /\ cl_has_marker r = false
           /\ exists t, In t (toks (nlp text_in)) /\ i t = cl_i r
                        /\ dep_ t = "ROOT" /\ In (pos_ t) ["VERB"; "AUX"]).
Proof.
  intros Hd Ha. apply analyze_inv in Ha as (_ & _ & _ & Hc & _).
  rewrite Hc. clear out Hc. set (d := nlp text_in) in *. split.
  - unfold clauses_of. rewrite clause_anchors.
    now apply filter_increasing, indexed_increasing.
  - intros r Hr. apply clauses_In in Hr as (t & Ht & [[R ->] | [D ->]]).
    + split; [cbn; tauto|]. intros _. repeat split. exists t.
      unfold is_root_predicate in R. apply andb_true_iff in R as [R1 R2].
      apply String.eqb_eq in R1. apply str_in_In in R2. now repeat split.
    + split.
      * cbn. destruct (dep_ t == "advcl"); [tauto|].
        destruct (dep_ t == "relcl"); tauto.
      * cbn. destruct (dep_ t == "advcl"); [discriminate|].
        destruct (dep_ t == "relcl"); discriminate.
Qed.

Lemma clauses_in_token_order_witness :
  doc_indexed (want_nlp "I want to go.")
  /\ exists out,
      analyze want_nlp "I want to go." = Some out
      /\ increasing (map cl_i (clauses out)).
Proof.
  split; [reflexivity|].
  eexists. split; [reflexivity|].
  apply (clauses_in_token_order want_nlp "I want to go."); reflexivity.
Defined.

(* ===================================================================== *)
(** ** The auxiliary chain                                                *)
(* ===================================================================== *)

Ltac sort_step :=
  cbn [insert_by_i dedup_by_i sorted_by_i fold_right map In].

Lemma insert_by_i_In (t x : Token) (l : list Token) :
  In x (insert_by_i t l) <-> x = t \/ In x l.
Proof.
  induction l as [|u r IH]; sort_step; [intuition (subst; auto)|].
  destruct (i t <? i u); sort_step; rewrite ?IH; intuition (subst; auto).
Qed.

Lemma sorted_by_i_In (x : Token) (l : list Token) :
  In x (sorted_by_i l) <-> In x l.
Proof.
  induction l as [|t l IH]; sort_step; [tauto|].
  fold (sorted_by_i l). rewrite insert_by_i_In, IH. intuition (subst; auto).
Qed.

Lemma insert_by_i_increasing (t : Token) (l : list Token) :
  increasing (map i l) -> ~ In (i t) (map i l) ->
  increasing (map i (insert_by_i t l)).
Proof.
  unfold increasing. induction l as [|u r IH]; sort_step; intros Hs Hn.
  - repeat constructor.
  - apply StronglySorted_inv in Hs as [Hs Hall].
    destruct (i t <? i u) eqn:E; sort_step.
    + apply Nat.ltb_lt in E. constructor; [now constructor|].
      constructor; [exact E|]. rewrite Forall_forall in *.
      intros x Hx. specialize (Hall x Hx). lia.
    + apply Nat.ltb_ge in E. constructor; [apply IH; tauto|].
      rewrite Forall_forall in *. intros x Hx.
      apply in_map_iff in Hx as (y & <- & Hy).
      apply insert_by_i_In in Hy as [-> | Hy].
      * assert (i u <> i t) by tauto. lia.
      * apply Hall. now apply in_map.
Qed.

Lemma sorted_by_i_increasing (l : list Token) :
  NoDup (map i l) -> increasing (map i (sorted_by_i l)).
Proof.
  induction l as [|t l IH]; sort_step; intros H; [constructor|].
  fold (sorted_by_i l). apply NoDup_cons_iff in H as [Hn Hd].
  apply insert_by_i_increasing; [now apply IH|].
  intros Hin. apply Hn. apply in_map_iff in Hin as (y & E & Hy).
  rewrite <- E. apply in_map. now apply sorted_by_i_In.
Qed.

Lemma dedup_by_i_sub (x : Token) (l : list Token) :
  In x (dedup_by_i l) -> In x l.
Proof.
  induction l as [|t r IH]; sort_step; [tauto|].
  destruct (existsb _ r); sort_step; intuition.
Qed.

Lemma dedup_by_i_NoDup (l : list Token) : NoDup (map i (dedup_by_i l)).
Proof.
  induction l as [|t r IH]; sort_step; [constructor|].
  destruct (existsb (fun u => i u =? i t) r) eqn:E; [exact IH|].
  cbn [map]. constructor; [|exact IH].
  intros Hin. apply in_map_iff in Hin as (y & Ey & Hy).
  apply dedup_by_i_sub in Hy.
  assert (existsb (fun u => i u =? i t) r = true) as A.
  { apply existsb_exists. exists y. split; [exact Hy|].
    now apply Nat.eqb_eq. }
  congruence.
Qed.

Lemma dedup_by_i_index (l : list Token) :
  forall x, In x l -> exists y, In y (dedup_by_i l) /\ i y = i x.
Proof.
  induction l as [|t r IH]; sort_step; [tauto|]. intros x [-> | Hx].
  - destruct (existsb (fun u => i u =? i x) r) eqn:E.
    + apply existsb_exists in E as (u & Hu & Eu).
      apply Nat.eqb_eq in Eu. destruct (IH u Hu) as (y & Hy & Ey).
      exists y. split; [exact Hy | congruence].
    + exists x. split; [now left | reflexivity].
  - destruct (IH x Hx) as (y & Hy & Ey).
    exists y. split; [|exact Ey].
    destruct (existsb _ r); [exact Hy | now right].
Qed.

Lemma increasing_unique (l1 : list Token) :
  forall l2,
    increasing (map i l1) -> increasing (map i l2) ->
    (forall x, In x l1 <-> In x l2) -> l1 = l2.
Proof.
  unfold increasing.
  induction l1 as [|a l1 IH]; intros [|b l2] H1 H2 Hm.
  - reflexivity.
  - destruct (proj2 (Hm b)); now left.
  - destruct (proj1 (Hm a)); now left.
  - cbn in H1, H2.
    apply StronglySorted_inv in H1 as [S1 A1].
    apply StronglySorted_inv in H2 as [S2 A2].
    rewrite Forall_forall in A1, A2.
    assert (a = b) as ->.
    { destruct (proj1 (Hm a) (or_introl eq_refl)) as [E | Ha]; [auto|].
      destruct (proj2 (Hm b) (or_introl eq_refl)) as [E | Hb]; [auto|].
      pose proof (A2 _ (in_map i _ _ Ha)).
      pose proof (A1 _ (in_map i _ _ Hb)). lia. }
    f_equal. apply IH; try assumption.
    intros x. split; intros Hx.
    + destruct (proj1 (Hm x) (or_intror Hx)) as [E | H]; [|exact H].
      subst x. pose proof (A1 _ (in_map i _ _ Hx)). lia.
    + destruct (proj2 (Hm x) (or_intror Hx)) as [E | H]; [|exact H].
      subst x. pose proof (A2 _ (in_map i _ _ Hx)). lia.
Qed.

Lemma aux_chain_source (d : Doc) (tok x : Token) :
  In x (filter (fun c => str_in (dep_ c) ["aux"; "auxpass"])
               (children d tok)
        ++ filter (fun t => (i (head_of d t) =? i tok) && (tag_ t == "MD"))
                  (toks d))%list
  <-> In x (toks d) /\ in_aux_chain d tok x = true.
Proof.
  unfold children, in_aux_chain.
  rewrite in_app_iff, !filter_In, orb_true_iff, !andb_true_iff. tauto.
Qed.

(** X1. In an indexed document the auxiliary chain of a token is the text
    of the tokens attached to it as [aux] or [auxpass] and of the modals
    headed by it, from left to right, each once: the set and the sort of
    the code amount to one pass over the document. *)
Theorem aux_chain_in_document_order (d : Doc) (tok : Token) :
  doc_indexed d ->
  collect_aux_chain d tok
  = map text (filter (in_aux_chain d tok) (toks d)).
Proof.
  intros Hd. unfold collect_aux_chain. f_equal.
  apply increasing_unique.
  - apply sorted_by_i_increasing, dedup_by_i_NoDup.
  - now apply filter_increasing, indexed_increasing.
  - intros x. rewrite sorted_by_i_In, filter_In. split.
    + intros H. apply dedup_by_i_sub in H. now apply aux_chain_source.
    + intros H. pose proof (proj2 (aux_chain_source d tok x) H) as Hx.
      destruct (dedup_by_i_index _ x Hx) as (y & Hy & Ey).
      assert (y = x) as <-; [|exact Hy].
      pose proof (dedup_by_i_sub _ _ Hy) as Hy'.
      apply aux_chain_source in Hy' as [Hy' _]. destruct H as [H _].
      pose proof (indexed_In d y Hd Hy') as E1.
      pose proof (indexed_In d x Hd H) as E2.
      rewrite Ey in E1. congruence.
Qed.

Lemma aux_chain_in_document_order_witness :
  doc_indexed waiting_doc
  /\ collect_aux_chain waiting_doc (nth 4 waiting_toks blank)
     = map text (filter (in_aux_chain waiting_doc (nth 4 waiting_toks blank))
                        (toks waiting_doc)).
Proof.
  split; [reflexivity|].
  apply (aux_chain_in_document_order waiting_doc (nth 4 waiting_toks blank)).
  reflexivity.
Defined.

(* ===================================================================== *)
(** ** The records of the other buckets and the labels                    *)
(* ===================================================================== *)

Lemma record_step_rest (d : Doc) (st : Buckets) (t : Token) :
  nouns (dispatch d st t)
  = (nouns st ++ if gold_of t == "noun" then [noun_info d t] else [])%list
  /\ pronouns (dispatch d st t)
     = (pronouns st
        ++ if gold_of t == "pronoun" then [pronoun_info t] else [])%list
  /\ adjectives (dispatch d st t)
     = (adjectives st
        ++ if gold_of t == "adjective" then [adjective_info t] else [])%list
  /\ adverbs (dispatch d st t)
     = (adverbs st
        ++ if gold_of t == "adverb" then [adverb_info d t] else [])%list
  /\ prepositions (dispatch d st t)
     = (prepositions st
        ++ if gold_of t == "preposition" then [preposition_info t]
           else [])%list
  /\ interjections (dispatch d st t)
     = (interjections st
        ++ if gold_of t == "interjection" then [interjection_info t]
           else [])%list.
Proof.
  unfold dispatch, gold_of.
  split_ifs;
    cbn [String.eqb Ascii.eqb Bool.eqb andb] in *; try discriminate;
    cbn [nouns pronouns adjectives adverbs prepositions interjections
         add_label add_verb add_auxiliary add_noun add_pronoun
         add_adjective add_adverb add_preposition add_conjunction
         add_interjection];
    rewrite ?app_nil_r; repeat split.
Qed.

Lemma record_fold_rest (d : Doc) (l : list Token) :
  forall st,
    let st' := fold_left (dispatch d) l st in
    let sel g := filter (fun t => gold_of t == g) l in
    nouns st' = (nouns st ++ map (noun_info d) (sel "noun"))%list
    /\ pronouns st' = (pronouns st ++ map pronoun_info (sel "pronoun"))%list
    /\ adjectives st'
       = (adjectives st ++ map adjective_info (sel "adjective"))%list
    /\ adverbs st' = (adverbs st ++ map (adverb_info d) (sel "adverb"))%list
    /\ prepositions st'
       = (prepositions st ++ map preposition_info (sel "preposition"))%list
    /\ interjections st'
       = (interjections st
          ++ map interjection_info (sel "interjection"))%list.
Proof.
  induction l as [|t l IH]; intros st; cbn zeta; cbn [fold_left filter].
  - cbn [map]. now rewrite !app_nil_r.
  - destruct (IH (dispatch d st t)) as (I1 & I2 & I3 & I4 & I5 & I6).
    destruct (record_step_rest d st t) as (S1 & S2 & S3 & S4 & S5 & S6).
    rewrite I1, I2, I3, I4, I5, I6, S1, S2, S3, S4, S5, S6, <- !app_assoc.
    repeat split.
    + now destruct (gold_of t == "noun").
    + now destruct (gold_of t == "pronoun").
    + now destruct (gold_of t == "adjective").
    + now destruct (gold_of t == "adverb").
    + now destruct (gold_of t == "preposition").
    + now destruct (gold_of t == "interjection").
Qed.

Lemma nouns_spec (d : Doc) :
  nouns (pos_buckets d)
  = map (noun_info d) (filter (fun t => gold_of t == "noun") (toks d)).
Proof. apply (record_fold_rest d (toks d) no_buckets). Qed.

Lemma pronouns_spec (d : Doc) :
  pronouns (pos_buckets d)
  = map pronoun_info (filter (fun t => gold_of t == "pronoun") (toks d)).
Proof. apply (record_fold_rest d (toks d) no_buckets). Qed.

Lemma noun_info_why (d : Doc) (t : Token) : n_why (noun_info d t) <> [].
Proof. unfold noun_info. cbn. discriminate. Qed.

Lemma pronoun_info_why (t : Token) : p_why (pronoun_info t) <> [].
Proof.
  unfold pronoun_info. split_ifs; cbv beta zeta iota delta [p_why];
    discriminate.
Qed.

Lemma conjunction_info_why (t : Token) : c_why (conjunction_info t) <> [].
Proof.
  unfold conjunction_info. split_ifs; cbv beta zeta iota delta [c_why];
    discriminate.
Qed.

Lemma label_step (d : Doc) (st : Buckets) (t : Token) :
  exists lab,
    pos_labels (dispatch d st t) = (pos_labels st ++ [lab])%list
    /\ l_why lab <> [] /\ In (gold lab) GOLD_VALUES.
Proof.
  pose proof (noun_info_why d t). pose proof (pronoun_info_why t).
  pose proof (conjunction_info_why t).
  unfold dispatch. split_ifs;
    (eexists; split; [reflexivity|]; split;
     [cbn [l_why label aux_label]; cbv zeta;
      first [assumption | discriminate]
     | cbn; tauto]).
Qed.

(** X6. Every entry of [pos_labels] carries a non-empty justification and
    one of the ten [gold] values. *)
Theorem labels_justified (nlp : string -> Doc) (text_in : string)
        (out : AnalyzeOut) (lab : PosLabel) :
  analyze nlp text_in = Some out ->
  In lab (pos_labels (buckets out)) ->
  l_why lab <> [] /\ In (gold lab) GOLD_VALUES.
Proof.
  intros Ha. apply analyze_inv in Ha as (_ & _ & Hb & _). rewrite Hb.
  clear out Hb. unfold pos_buckets. set (d := nlp text_in).
  assert (forall l st,
             Forall (fun x => l_why x <> [] /\ In (gold x) GOLD_VALUES)
                    (pos_labels st) ->
             Forall (fun x => l_why x <> [] /\ In (gold x) GOLD_VALUES)
                    (pos_labels (fold_left (dispatch d) l st))) as Hfold.
  { induction l as [|t l IH]; intros st Hst; [exact Hst|].
    cbn [fold_left]. apply IH.
    destruct (label_step d st t) as (x & -> & Hw & Hg).
    apply Forall_app. split; [exact Hst|].
    constructor; [now split | constructor]. }
  intros Hin.
  pose proof (Hfold (toks d) no_buckets (Forall_nil _)) as HF.
  rewrite Forall_forall in HF. now apply HF.
Qed.

Lemma labels_justified_witness :
  exists out lab,
    analyze waiting_nlp waiting_text = Some out
    /\ In lab (pos_labels (buckets out))
    /\ l_why lab <> [] /\ In (gold lab) GOLD_VALUES.
Proof.
  eexists. exists (label (nth 6 waiting_toks blank) "other"
                         ["Not a core POS in this game."]).
  split; [reflexivity|].
  split; [cbn; tauto|].
  eapply (labels_justified waiting_nlp waiting_text);
    [reflexivity | cbn; tauto].
Defined.

(* ===================================================================== *)
(** ** Verb and auxiliary records                                         *)
(* ===================================================================== *)

Lemma join_sp_single (s : string) : join_sp [s] = s.
Proof. reflexivity. Qed.

(** X2. A record of [verbs] never describes a modal or a form of be, have
    or do (those are auxiliaries), so "be" among the linking lemmas is
    never met there; its [soa] is ["state"] exactly when [is_linking]
    holds and else ["occurrence"] or ["action"]; and [phrasal] is the
    verb's text followed by its particles, separated by blanks. *)
Theorem verb_records_wellformed (nlp : string -> Doc) (text_in : string)
        (out : AnalyzeOut) (r : VerbRec) :
  analyze nlp text_in = Some out ->
  In r (verbs (buckets out)) ->
  v_pos r = "VERB"
  /\ v_is_modal r = false
  /\ v_tag r <> "MD"
  /\ ~ In (v_lemma r) ["be"; "have"; "do"]
  /\ (v_soa r = "state" <-> v_is_linking r = true)
  /\ In (v_soa r) ["state"; "occurrence"; "action"]
  /\ v_phrasal r = join_sp (v_text r :: v_particles r).
Proof.
  intros Ha Hr. apply analyze_inv in Ha as (_ & _ & Hb & _).
  rewrite Hb, verbs_spec in Hr. clear out Hb.
  apply in_map_iff in Hr as (t & <- & Ht).
  apply filter_In in Ht as [_ Hg]. apply String.eqb_eq in Hg.
  apply gold_of_verb in Hg as [Haux Hpos].
  unfold is_aux in Haux.
  apply orb_false_iff in Haux as [Haux Hlem].
  apply orb_false_iff in Haux as [_ Htag].
  split; [exact Hpos|]. split; [reflexivity|].
  split; [now apply String.eqb_neq|].
  split.
  { intros Hin. apply str_in_In in Hin. cbn [v_lemma verb_record] in Hin.
    congruence. }
  cbn [v_soa v_is_linking v_phrasal v_text v_particles verb_record].
  split; [|split].
  - destruct (str_in (lemma_ t) LINKING_LEMMAS && _); [tauto|].
    destruct (str_in (lemma_ t) ["happen"; "occur"; "arise"]);
      split; discriminate.
  - destruct (str_in (lemma_ t) LINKING_LEMMAS && _); [cbn; tauto|].
    destruct (str_in (lemma_ t) ["happen"; "occur"; "arise"]); cbn; tauto.
  - destruct (find_phrasal_particles _ t); reflexivity.
Qed.

Lemma verb_records_wellformed_witness :
  exists out r,
    analyze waiting_nlp waiting_text = Some out
    /\ In r (verbs (buckets out))
    /\ v_pos r = "VERB"
    /\ v_is_modal r = false
    /\ v_tag r <> "MD"
    /\ ~ In (v_lemma r) ["be"; "have"; "do"]
    /\ (v_soa r = "state" <-> v_is_linking r = true)
    /\ In (v_soa r) ["state"; "occurrence"; "action"]
    /\ v_phrasal r = join_sp (v_text r :: v_particles r).
Proof.
  eexists. exists (verb_record waiting_doc (nth 4 waiting_toks blank)).
  split; [reflexivity|].
  split; [cbn; tauto|].
  eapply (verb_records_wellformed waiting_nlp waiting_text);
    [reflexivity | cbn; tauto].
Defined.

Lemma aux_role_values (a h : Token) : In (aux_role a h) AUX_ROLES.
Proof. unfold aux_role. split_ifs; cbn; tauto. Qed.

(** X16. A record of [auxiliaries] has one of the six roles, its
    justification names that role, and its [head_text] is either absent or
    a non-empty text. *)
Theorem aux_records_wellformed (nlp : string -> Doc) (text_in : string)
        (out : AnalyzeOut) (r : AuxRec) :
  analyze nlp text_in = Some out ->
  In r (auxiliaries (buckets out)) ->
  In (a_role r) AUX_ROLES
  /\ a_why r = ["Auxiliary (" ++ a_role r ++ ")."]
  /\ a_head_text r <> Some "".
Proof.
  intros Ha Hr. apply analyze_inv in Ha as (_ & _ & Hb & _).
  rewrite Hb, auxiliaries_spec in Hr. clear out Hb.
  apply in_map_iff in Hr as (t & <- & _).
  split; [apply aux_role_values|]. split; [reflexivity|].
  cbn [a_head_text aux_record]. unfold truthy.
  destruct (text (head_of (nlp text_in) t) == "") eqn:E; cbn [negb];
    [discriminate|].
  apply String.eqb_neq in E. congruence.
Qed.

Lemma aux_records_wellformed_witness :
  exists out r,
    analyze waiting_nlp waiting_text = Some out
    /\ In r (auxiliaries (buckets out))
    /\ In (a_role r) AUX_ROLES
    /\ a_why r = ["Auxiliary (" ++ a_role r ++ ")."]
    /\ a_head_text r <> Some "".
Proof.
  eexists. exists (aux_record waiting_doc (nth 1 waiting_toks blank)).
  split; [reflexivity|].
  split; [cbn; tauto|].
  eapply (aux_records_wellformed waiting_nlp waiting_text);
    [reflexivity | cbn; tauto].
Defined.

(* ===================================================================== *)
(** ** Nouns by fine tag                                                  *)
(* ===================================================================== *)

(** X15. A token with a noun fine tag that is neither an auxiliary nor
    tagged [VERB] is placed in [nouns] whatever its coarse tag is (so a
    proper noun, coarse tag [PROPN], is a noun), and in no other
    bucket. *)
Theorem noun_by_fine_tag (nlp : string -> Doc) (text_in : string)
        (out : AnalyzeOut) (t : Token) :
  doc_indexed (nlp text_in) ->
  analyze nlp text_in = Some out ->
  In t (toks (nlp text_in)) ->
  is_aux t = false -> pos_ t <> "VERB" -> In (tag_ t) NOUN_TAGS ->
  In (noun_info (nlp text_in) t) (nouns (buckets out))
  /\ (forall B, In (i t) (indices (buckets out) B) <-> B = Nouns)
  /\ ~ In (i t) (other_indices (buckets out)).
Proof.
  intros Hd Ha Ht Haux Hpos Htag.
  apply analyze_inv in Ha as (_ & _ & Hb & _). rewrite Hb. clear out Hb.
  set (d := nlp text_in) in *.
  assert (gold_of t = "noun") as Hg.
  { unfold gold_of. rewrite Haux.
    apply String.eqb_neq in Hpos. rewrite Hpos.
    apply str_in_In in Htag. rewrite Htag. now rewrite orb_true_r. }
  assert (In (i t) (indices (pos_buckets d) Nouns)) as HN.
  { apply indices_In. now exists t. }
  destruct (dispatcher_partitions d Hd) as (_ & _ & _ & Hone & Hoth).
  split; [|split].
  - rewrite nouns_spec. apply in_map, filter_In.
    split; [exact Ht | now apply String.eqb_eq].
  - intros B. split; [intros HB; now apply (Hone (i t)) | now intros ->].
  - intros Ho. now apply (Hoth (i t) Nouns).
Qed.

Lemma noun_by_fine_tag_witness :
  doc_indexed (london_nlp "London sleeps.")
  /\ exists out t,
      analyze london_nlp "London sleeps." = Some out
      /\ In t (toks london_doc)
      /\ is_aux t = false /\ pos_ t <> "VERB" /\ In (tag_ t) NOUN_TAGS
      /\ pos_ t = "PROPN"
      /\ In (noun_info london_doc t) (nouns (buckets out))
      /\ (forall B, In (i t) (indices (buckets out) B) <-> B = Nouns)
      /\ ~ In (i t) (other_indices (buckets out)).
Proof.
  split; [reflexivity|].
  eexists. exists (nth 0 london_toks blank).
  split; [reflexivity|].
  split; [cbn; tauto|].
  split; [reflexivity|].
  split; [discriminate|].
  split; [cbn; tauto|].
  split; [reflexivity|].
  apply (noun_by_fine_tag london_nlp "London sleeps.");
    [reflexivity | reflexivity | cbn; tauto | reflexivity | discriminate
    | cbn; tauto].
Defined.

(* ===================================================================== *)
(** ** Empty input and noun phrases                                       *)
(* ===================================================================== *)

(** X4. On a document without tokens and without noun chunks (the parse
    of an empty text) every list of the response is empty, whatever the
    annotation flag says. *)
Theorem analyze_empty (nlp : string -> Doc) (text_in : string) :
  toks (nlp text_in) = [] ->
  noun_chunks (nlp text_in) = Some [] ->
  analyze nlp text_in
  = Some {| out_text := text_in; tokens := []; buckets := no_buckets;
            noun_phrases := []; clauses := [] |}.
Proof.
  intros Ht Hc. unfold analyze, noun_phrases_of, pos_buckets, clauses_of.
  rewrite Ht, Hc. now destruct (has_annotation_DEP (nlp text_in)).
Qed.

Lemma analyze_empty_witness :
  toks (empty_nlp "") = []
  /\ noun_chunks (empty_nlp "") = Some []
  /\ analyze empty_nlp ""
     = Some {| out_text := ""; tokens := []; buckets := no_buckets;
               noun_phrases := []; clauses := [] |}.
Proof.
  split; [reflexivity|]. split; [reflexivity|].
  apply (analyze_empty empty_nlp ""); reflexivity.
Defined.

(** X11. With the annotation present and the chunks readable, the
    response has one noun phrase per chunk, in the order of the chunks,
    each with the index and text of the chunk's root, the chunk's text and
    one of the four roles; its head type is ["proper"] exactly when the
    root has a proper-noun fine tag. *)
Theorem noun_phrases_follow_chunks (nlp : string -> Doc)
        (text_in : string) (chunks : list Span) :
  has_annotation_DEP (nlp text_in) = true ->
  noun_chunks (nlp text_in) = Some chunks ->
  exists out,
    analyze nlp text_in = Some out
    /\ length (noun_phrases out) = length chunks
    /\ map np_i (noun_phrases out) = map (fun np => i (root np)) chunks
    /\ map np_head (noun_phrases out) = map (fun np => text (root np)) chunks
    /\ map np_span (noun_phrases out) = map span_text chunks
    /\ forall r, In r (noun_phrases out) ->
         In (np_role r)
            ["subject"; "object"; "object_of_preposition"; "other"]
         /\ exists np, In np chunks /\ r = noun_phrase (nlp text_in) np
              /\ (np_head_type r = "proper"
                  <-> In (tag_ (root np)) ["NNP"; "NNPS"]).
Proof.
  intros Hf Hc. unfold analyze, noun_phrases_of. rewrite Hf, Hc.
  eexists. split; [reflexivity|]. cbn [noun_phrases].
  split; [apply length_map|].
  split; [now rewrite map_map|].
  split; [now rewrite map_map|].
  split; [now rewrite map_map|].
  intros r Hr. apply in_map_iff in Hr as (np & <- & Hnp). split.
  - cbn [np_role noun_phrase]. split_ifs; cbn; tauto.
  - exists np. split; [exact Hnp|]. split; [reflexivity|].
    cbn [np_head_type noun_phrase]. rewrite <- str_in_In.
    destruct (str_in (tag_ (root np)) ["NNP"; "NNPS"]);
      split; try discriminate; reflexivity.
Qed.

Lemma noun_phrases_follow_chunks_witness :
  has_annotation_DEP (waiting_nlp waiting_text) = true
  /\ exists chunks,
      noun_chunks (waiting_nlp waiting_text) = Some chunks
      /\ exists out,
          analyze waiting_nlp waiting_text = Some out
          /\ length (noun_phrases out) = length chunks
          /\ map np_i (noun_phrases out) = map (fun np => i (root np)) chunks
          /\ map np_head (noun_phrases out)
             = map (fun np => text (root np)) chunks
          /\ map np_span (noun_phrases out) = map span_text chunks
          /\ forall r, In r (noun_phrases out) ->
               In (np_role r)
                  ["subject"; "object"; "object_of_preposition"; "other"]
               /\ exists np, In np chunks
                    /\ r = noun_phrase (waiting_nlp waiting_text) np
                    /\ (np_head_type r = "proper"
                        <-> In (tag_ (root np)) ["NNP"; "NNPS"]).
Proof.
  split; [reflexivity|]. eexists. split; [reflexivity|].
  apply (noun_phrases_follow_chunks waiting_nlp waiting_text); reflexivity.
Defined.

(** The noun phrases of "They might have been waiting for the bus.". *)
Example waiting_noun_phrases :
  map (fun r => (np_i r, np_span r, np_role r, np_has_det r))
      (map (noun_phrase waiting_doc)
           [ {| start := 0; end_ := 1; root := nth 0 waiting_toks blank;
                span_text := "They" |};
             {| start := 6; end_ := 8; root := nth 7 waiting_toks blank;
                span_text := "the bus" |} ])
  = [(0, "They", "subject", false);
     (7, "the bus", "object_of_preposition", true)].
Proof. reflexivity. Qed.

(* ===================================================================== *)
(** ** Noun features                                                      *)
(* ===================================================================== *)

(** X5. In a noun record, countability is ["count"] exactly for the four
    noun fine tags (the plural test adds nothing); a proper or a count
    noun is always ["concrete"]; the justification has between one and
    three lines, and mentions the possessive and the collective exactly
    when the flags are set. *)
Theorem noun_info_consistent (d : Doc) (tok : Token) :
  let r := noun_info d tok in
  (n_countability r = "count" <-> In (tag_ tok) NOUN_TAGS)
  /\ (n_countability r = "noncount" <-> ~ In (tag_ tok) NOUN_TAGS)
  /\ (n_type r = "proper" -> n_countability r = "count")
  /\ (n_countability r = "count" -> n_concreteness r = "concrete")
  /\ 1 <= length (n_why r) <= 3
  /\ (n_possessive r = true <-> In "Possessive form detected." (n_why r))
  /\ (n_collective r = true
      <-> In "Collective noun (group as a unit)." (n_why r)).
Proof.
  cbn zeta.
  assert (str_in (tag_ tok) ["NNS"; "NNPS"] = true ->
          str_in (tag_ tok) NOUN_TAGS = true) as Hpl.
  { rewrite !str_in_In. cbn. tauto. }
  assert (str_in (tag_ tok) ["NNP"; "NNPS"] = true ->
          str_in (tag_ tok) NOUN_TAGS = true) as Hpr.
  { rewrite !str_in_In. cbn. tauto. }
  assert (str_in (tag_ tok) NOUN_TAGS = true ->
          startswith (tag_ tok) "NN" = true) as Hnn.
  { rewrite str_in_In. cbn.
    intros [<- | [<- | [<- | [<- | []]]]]; reflexivity. }
  unfold noun_info.
  cbn [n_countability n_type n_concreteness n_why n_possessive n_collective].
  rewrite <- str_in_In.
  destruct (str_in (tag_ tok) NOUN_TAGS) eqn:EN;
    destruct (str_in (tag_ tok) ["NNS"; "NNPS"]) eqn:EP;
    try (apply Hpl in EP; congruence);
    destruct (str_in (tag_ tok) ["NNP"; "NNPS"]) eqn:ER;
    try (apply Hpr in ER; congruence);
    destruct (startswith (tag_ tok) "NN") eqn:ES;
    try (specialize (Hnn eq_refl); congruence);
    destruct (negb (ent_type_ tok == ""));
    destruct (existsb _ (children d tok) || (dep_ tok == "poss"));
    destruct (str_in (lower (lemma_ tok)) _);
    cbn;
    intuition (try discriminate; try lia; auto; try congruence).
Qed.

(* ===================================================================== *)
(** ** Pronoun features                                                   *)
(* ===================================================================== *)

Ltac lex_cases :=
  repeat match goal with
         | H : str_in _ _ = true |- _ => apply str_in_In in H; cbn [In] in H
         | H : _ && _ = true |- _ => apply andb_true_iff in H; destruct H
         | H : _ \/ _ |- _ => destruct H
         | H : False |- _ => destruct H
         end;
  subst.

Ltac lex_done :=
  cbn in *; try discriminate; try congruence; auto 12.

(** X8. In a pronoun record the fields agree: a case is given exactly to
    personal pronouns, a possessive form exactly to possessive ones, the
    reflexive flag exactly to reflexive ones; type and case take their
    values in fixed lists, and the justification is never empty. *)
Theorem pronoun_info_consistent (tok : Token) :
  let r := pronoun_info tok in
  (p_type r = "personal" <-> p_case r <> "(n/a)")
  /\ (p_type r = "possessive" <-> p_possessive_form r <> None)
  /\ (p_type r = "reflexive" <-> p_reflexive_or_intensive r = true)
  /\ In (p_type r)
        ["personal"; "possessive"; "demonstrative"; "interrogative";
         "relative"; "reflexive"; "indefinite"; "other"]
  /\ In (p_case r) ["subjective"; "objective"; "(n/a)"]
  /\ p_why r <> [].
Proof.
  cbn zeta. unfold pronoun_info. split_ifs;
    cbv beta zeta iota
        delta [p_type p_case p_possessive_form p_reflexive_or_intensive
               p_why];
    repeat split; intros; try discriminate; try congruence;
    try (cbn; tauto).
Qed.

(** X9. Which words reach which class: the objective case goes to "me",
    "us", "him", "her", "them" only ("you" and "it" are always
    subjective); the dependent possessive form to "my", "your", "our",
    "their", "its" only ("his" is always absolute, "her" always a
    personal pronoun); the comparison ignores the case of the letters. *)
Theorem pronoun_effective_sets (tok : Token) :
  let r := pronoun_info tok in
  let txt := lower (text tok) in
  (p_case r = "subjective"
   <-> In txt ["i"; "we"; "you"; "he"; "she"; "they"; "it"])
  /\ (p_case r = "objective" <-> In txt ["me"; "us"; "him"; "her"; "them"])
  /\ (p_possessive_form r = Some "absolute"
      <-> In txt ["mine"; "yours"; "his"; "hers"; "ours"; "theirs"])
  /\ (p_possessive_form r = Some "dependent"
      <-> In txt ["my"; "your"; "our"; "their"; "its"])
  /\ (p_type r = "demonstrative"
      <-> In txt ["this"; "that"; "these"; "those"]).
Proof.
  cbn zeta. unfold pronoun_info. cbv beta zeta.
  generalize (lower (text tok)). intros txt.
  repeat split.
  all: try (intros Hin; cbn [In] in Hin; lex_cases; reflexivity).
  all: split_ifs;
    cbv beta zeta iota delta [p_type p_case p_possessive_form];
    intros Heq; try discriminate Heq; clear Heq; lex_cases; lex_done.
Qed.

(** X7. A pronoun is typed ["relative"] exactly when it is "who", "whom",
    "whose" or "which" with the relation [relcl]: "that" is always a
    demonstrative, and with any other relation of the relative list the
    interrogative test comes first. *)
Theorem pronoun_relative_iff (tok : Token) :
  p_type (pronoun_info tok) = "relative"
  <-> In (lower (text tok)) ["who"; "whom"; "whose"; "which"]
      /\ dep_ tok = "relcl".
Proof.
  unfold pronoun_info. cbv beta zeta.
  generalize (lower (text tok)). intros txt. split.
  - split_ifs; cbv beta zeta iota delta [p_type];
      intros Heq; try discriminate Heq; clear Heq.
    lex_cases;
      repeat match goal with
             | H : dep_ tok = _ |- _ => symmetry in H
             | H : _ = dep_ tok |- _ => rewrite <- H in *
             end;
      lex_done.
  - intros [Hin Hdep]. rewrite Hdep. cbn [In] in Hin. lex_cases; reflexivity.
Qed.

(* ===================================================================== *)
(** ** Conjunction sub-types as the code decides them                     *)
(* ===================================================================== *)

(** X17. The sub-type of a conjunction record depends on the lowered
    lemma only; the three word lists are disjoint, so each sub-type
    corresponds to membership in its own list, and ["other"] to
    membership in none. The record keeps the lemma as the parser gave
    it. *)
Theorem conjunction_types (tok : Token) :
  let r := conjunction_info tok in
  let lemma := lower (lemma_ tok) in
  (c_type r = "coordinating"
   <-> In lemma ["for"; "and"; "nor"; "but"; "or"; "yet"; "so"])
  /\ (c_type r = "subordinating"
      <-> In lemma ["because"; "although"; "if"; "when"; "since"; "while";
                    "after"; "before"; "though"; "unless"; "until"])
  /\ (c_type r = "conjunctive_adverb"
      <-> In lemma ["however"; "therefore"; "moreover"; "consequently";
                    "furthermore"; "nevertheless"])
  /\ (c_type r = "other"
      <-> ~ In lemma ["for"; "and"; "nor"; "but"; "or"; "yet"; "so";
                      "because"; "although"; "if"; "when"; "since";
                      "while"; "after"; "before"; "though"; "unless";
                      "until"; "however"; "therefore"; "moreover";
                      "consequently"; "furthermore"; "nevertheless"])
  /\ c_lemma r = lemma_ tok.
Proof.
  cbn zeta. unfold conjunction_info. cbv beta zeta.
  generalize (lower (lemma_ tok)). intros lemma.
  split; [|split; [|split; [|split]]].
  1-3: split;
    [ split_ifs; cbv beta zeta iota delta [c_type];
      intros Heq; try discriminate Heq; clear Heq; lex_cases; lex_done
    | intros Hin; cbn [In] in Hin; lex_cases; reflexivity ].
  - split.
    + split_ifs; cbv beta zeta iota delta [c_type];
        intros Heq; try discriminate Heq; clear Heq.
      intros Hin.
      repeat match goal with
             | H : str_in _ _ = false |- _ =>
                 apply not_true_iff_false in H; rewrite str_in_In in H
             end.
      cbn [In] in *. tauto.
    + intros Hn.
      assert (forall l, (forall x, In x l -> In x
                ["for"; "and"; "nor"; "but"; "or"; "yet"; "so";
                 "because"; "although"; "if"; "when"; "since";
                 "while"; "after"; "before"; "though"; "unless";
                 "until"; "however"; "therefore"; "moreover";
                 "consequently"; "furthermore"; "nevertheless"]) ->
              str_in lemma l = false) as Hout.
      { intros l Hl. apply not_true_iff_false. rewrite str_in_In. auto. }
      rewrite !Hout; [reflexivity | | |]; intros x Hx; cbn [In] in *; tauto.
  - split_ifs; reflexivity.
Qed.

(* ===================================================================== *)
(** ** Answers of the sentence services                                   *)
(* ===================================================================== *)

(** X13. When Tatoeba answers with a JSON object whose ["results"] is a
    non-empty list and whose first result has a ["text"], [sentence]
    returns that text tagged ["tatoeba"], whatever the other service, the
    key and the draw are. *)
Theorem tatoeba_answer_returned (w : World) (r : Response)
        (kv : list (string * value)) (first : value) (rest : list value)
        (txt : value) :
  get_tatoeba w = Ret r ->
  json r = Ret (VDict kv) ->
  lookup kv "results" = Some (VList (first :: rest)) ->
  item first "text" = Ret txt ->
  sentence "tatoeba" w = Ret {| s_text := txt; s_source := "tatoeba" |}.
Proof.
  intros Hr Hj Hl Ht. unfold sentence, tatoeba_try.
  cbn [String.eqb Ascii.eqb Bool.eqb andb].
  rewrite Hr. cbn [bind]. rewrite Hj. cbn [bind get item].
  rewrite Hl. cbn [bind truth item0]. rewrite Ht. reflexivity.
Qed.

Lemma tatoeba_answer_returned_witness :
  sentence "tatoeba" tatoeba_up
  = Ret {| s_text := VStr "Hello."; s_source := "tatoeba" |}.
Proof.
  apply (tatoeba_answer_returned tatoeba_up {| json := Ret tatoeba_body |}
           [("paging", VDict []);
            ("results",
             VList [VDict [("id", VNum 7); ("text", VStr "Hello.")]])]
           (VDict [("id", VNum 7); ("text", VStr "Hello.")]) []);
    reflexivity.
Defined.

(** X14. When a key is configured and Wordnik answers with a word and a
    non-empty list of examples whose first element is an object,
    [sentence] returns, tagged ["wordnik"], the text of that example, or
    the word itself when the example has no text or an empty one;
    Tatoeba is not consulted. *)
Theorem wordnik_answer_returned (w : World) (key : string)
        (r r2 : Response) (j base ex first t : value) (rest : list value) :
  WORDNIK_API_KEY w = Some key -> key <> "" ->
  get_random_word w key = Ret r -> json r = Ret j ->
  get j "word" = Ret base -> truth base = true ->
  get_examples w base key = Ret r2 -> json r2 = Ret ex ->
  get ex "examples" = Ret (VList (first :: rest)) ->
  get first "text" = Ret t ->
  sentence "wordnik" w
  = Ret {| s_text := if truth t then t else base; s_source := "wordnik" |}.
Proof.
  intros Hk Hne Hr Hj Hb Htb Hr2 Hex He Ht.
  unfold sentence, wordnik_try.
  cbn [String.eqb Ascii.eqb Bool.eqb andb].
  apply String.eqb_neq in Hne. rewrite Hk, Hne. cbn [negb].
  rewrite Hr. cbn [bind]. rewrite Hj. cbn [bind]. rewrite Hb. cbn [bind].
  rewrite Htb, Hr2. cbn [bind]. rewrite Hex. cbn [bind]. rewrite He.
  cbn [bind or_ truth item0]. rewrite Ht. reflexivity.
Qed.

Lemma wordnik_answer_returned_witness :
  sentence "wordnik" wordnik_up
  = Ret {| s_text := VStr "lantern"; s_source := "wordnik" |}.
Proof.
  apply (wordnik_answer_returned wordnik_up "k3y"
           {| json := Ret (VDict [("id", VNum 1);
                                  ("word", VStr "lantern")]) |}
           {| json := Ret (VDict [("examples",
                                   VList [VDict [("year", VNum 1900)]])]) |}
           (VDict [("id", VNum 1); ("word", VStr "lantern")])
           (VStr "lantern")
           (VDict [("examples", VList [VDict [("year", VNum 1900)]])])
           (VDict [("year", VNum 1900)]) VNone []);
    first [reflexivity | discriminate].
Defined.

(** X18. Only the requested service is consulted: unless the source is
    ["wordnik"], the result depends on the Tatoeba response and the draw
    alone (a failed Tatoeba request does not fall through to Wordnik);
    and for a source other than the two services it depends on the draw
    alone. *)
Theorem sentence_consults_requested_only (source : string) (w w' : World) :
  draw w = draw w' ->
  (source <> "wordnik" -> get_tatoeba w = get_tatoeba w' ->
   sentence source w = sentence source w')
  /\ (source <> "wordnik" -> source <> "tatoeba" ->
      sentence source w = sentence source w').
Proof.
  intros Hd. unfold sentence, tatoeba_try, local_fallback.
  split.
  - intros Hn Ht. apply (proj2 (String.eqb_neq _ _)) in Hn.
    now rewrite Hn, Ht, Hd.
  - intros Hn Hn'. apply (proj2 (String.eqb_neq _ _)) in Hn.
    apply (proj2 (String.eqb_neq _ _)) in Hn'. now rewrite Hn, Hn', Hd.
Qed.

Lemma sentence_consults_requested_only_witness :
  sentence "tatoeba" offline
  = sentence "tatoeba"
      {| get_tatoeba := get_tatoeba offline;
         WORDNIK_API_KEY := WORDNIK_API_KEY wordnik_up;
         get_random_word := get_random_word wordnik_up;
         get_examples := get_examples wordnik_up;
         draw := draw offline |}.
Proof.
  refine (proj1 (sentence_consults_requested_only
                   "tatoeba" offline _ eq_refl) _ eq_refl).
  discriminate.
Defined.

(* ===================================================================== *)
(** ** Adjective and adverb features                                      *)
(* ===================================================================== *)


(** X20. What an adverb record says it modifies: ["sentence"] exactly for
    the relation [advcl], ["adjective"] and ["adverb"] exactly for
    [advmod] under a head tagged [ADJ] or [ADV], and ["verb"] in every
    other case; the degree follows the fine tag, and the justification
    has a second line exactly for a conjunctive adverb. *)
Theorem adverb_info_modifies (d : Doc) (tok : Token) :
  let r := adverb_info d tok in
  (adv_modifies r = "sentence" <-> dep_ tok = "advcl")
  /\ (adv_modifies r = "adjective"
      <-> dep_ tok = "advmod" /\ pos_ (head_of d tok) = "ADJ")
  /\ (adv_modifies r = "adverb"
      <-> dep_ tok = "advmod" /\ pos_ (head_of d tok) = "ADV")
  /\ In (adv_modifies r) ["adjective"; "adverb"; "verb"; "sentence"]
  /\ (adv_degree r = "comparative" <-> tag_ tok = "RBR")
  /\ (adv_degree r = "superlative" <-> tag_ tok = "RBS")
  /\ (adv_conjunctive r = true <-> length (adv_why r) = 2)
  /\ (adv_conjunctive r = false <-> length (adv_why r) = 1).
Proof.
  cbn zeta. unfold adverb_info.
  cbn [adv_modifies adv_degree adv_conjunctive adv_why].
  destruct (dep_ tok == "advmod") eqn:D1;
    destruct (dep_ tok == "advcl") eqn:D2;
    destruct (pos_ (head_of d tok) == "ADJ") eqn:P1;
    destruct (pos_ (head_of d tok) == "ADV") eqn:P2;
    destruct (tag_ tok == "RBR") eqn:T1;
    destruct (tag_ tok == "RBS") eqn:T2;
    destruct (str_in (lower (lemma_ tok)) CONJUNCTIVE_ADVERBS);
    repeat match goal with
           | H : (_ == _) = true |- _ => apply String.eqb_eq in H
           | H : (_ == _) = false |- _ => apply String.eqb_neq in H
           end;
    try congruence;
    cbn [andb];
    try (destruct (str_in (pos_ (head_of d tok)) ["VERB"; "AUX"]));
    cbn; intuition (try discriminate; try congruence; auto).
Qed.
